(** * tink-go-awskms: the AWS KMS client of integration/awskms

    A shallow embedding of [aws_kms_client.go]: the option mechanism of
    [NewClientWithOptions], the credential-file resolution, the region
    parser and the [Supported] / [GetAEAD] methods of [awsClient].

    Go strings are byte strings: they are modelled by [string], whose
    characters are the 256 byte values.  Go closures used as options are
    listed as constructors and interpreted by [set].  What the package
    imports (the file system, [encoding/csv], the AWS session and config
    loaders, the Unicode tables) is gathered in the record [Env]. *)

From Stdlib Require Import String Ascii List Bool Arith ZArith Lia.
From Stdlib Require Import DecimalString.
Import ListNotations.
Local Open Scope string_scope.
Local Open Scope bool_scope.

(** ** Byte strings: the functions of package [strings] the client calls *)

Module strings.

(** [strings.HasPrefix]:
    [len(s) >= len(prefix) && s[:len(prefix)] == prefix]. *)
Definition HasPrefix (s prefix : string) : bool :=
  Nat.leb (String.length prefix) (String.length s)
  && String.eqb (substring 0 (String.length prefix) s) prefix.

(** [strings.TrimPrefix]: [s[len(prefix):]] when [s] has the prefix,
    [s] itself otherwise. *)
Definition TrimPrefix (s prefix : string) : string :=
  if HasPrefix s prefix
  then substring (String.length prefix)
                 (String.length s - String.length prefix) s
  else s.

Definition isUpperByte (c : ascii) : bool :=
  let n := nat_of_ascii c in Nat.leb 65 n && Nat.leb n 90.

(** [utf8.RuneSelf] is 0x80: bytes below it are single-byte runes. *)
Definition isASCIIByte (c : ascii) : bool := Nat.ltb (nat_of_ascii c) 128.

Definition lowerByte (c : ascii) : ascii :=
  if isUpperByte c then ascii_of_nat (nat_of_ascii c + 32) else c.

Fixpoint isASCII (s : string) : bool :=
  match s with
  | EmptyString => true
  | String c t => isASCIIByte c && isASCII t
  end.

Fixpoint mapBytes (f : ascii -> ascii) (s : string) : string :=
  match s with
  | EmptyString => EmptyString
  | String c t => String (f c) (mapBytes f t)
  end.

(** [strings.ToLower]: a string of ASCII bytes is lowered byte by byte;
    any other string goes through [Map(unicode.ToLower, s)], which is the
    Unicode table [unicodeLower] of the environment. *)
Definition ToLower (unicodeLower : string -> string) (s : string) : string :=
  if isASCII s then mapBytes lowerByte s else unicodeLower s.

End strings.

(** ** Package [regexp], as far as [getRegion] uses it

    The pattern of [getRegion] is a sequence of literals, one starred and
    one plussed character class, and two capture groups.  [exec] is a
    backtracking matcher for such sequences: greedy repetition, first
    match wins, which is the leftmost-first semantics of Go's [regexp].
    Captures are recorded as byte offsets, as [regexp] does. *)

Module regexp.

Inductive item :=
| ILit (s : string)
| IStar (cls : ascii -> bool)
| IPlus (cls : ascii -> bool)
| IOpen
| IClose.

(** A finished match: its end offset and the closed groups, in order. *)
Definition result := (nat * list (nat * nat))%type.

Fixpoint lit_k (s : string) (k : string -> nat -> option result)
         (rest : string) (pos : nat) : option result :=
  match s with
  | EmptyString => k rest pos
  | String c s' =>
      match rest with
      | String d rest' =>
          if Ascii.eqb c d then lit_k s' k rest' (S pos) else None
      | EmptyString => None
      end
  end.

(** Greedy repetition: take one more byte of the class when that leads to
    a match, stop here otherwise. *)
Fixpoint star_k (cls : ascii -> bool) (k : string -> nat -> option result)
         (rest : string) (pos : nat) : option result :=
  match rest with
  | String c rest' =>
      if cls c then
        match star_k cls k rest' (S pos) with
        | Some r => Some r
        | None => k rest pos
        end
      else k rest pos
  | EmptyString => k rest pos
  end.

Definition plus_k (cls : ascii -> bool) (k : string -> nat -> option result)
           (rest : string) (pos : nat) : option result :=
  match rest with
  | String c rest' => if cls c then star_k cls k rest' (S pos) else None
  | EmptyString => None
  end.

(** [opens] is the stack of the start offsets of the groups still open,
    [caps] the groups closed so far, the last one first. *)
Fixpoint exec (p : list item) (opens : list nat) (caps : list (nat * nat))
         (rest : string) (pos : nat) : option result :=
  match p with
  | [] => Some (pos, rev caps)
  | ILit s :: p' => lit_k s (fun r n => exec p' opens caps r n) rest pos
  | IStar cls :: p' => star_k cls (fun r n => exec p' opens caps r n) rest pos
  | IPlus cls :: p' => plus_k cls (fun r n => exec p' opens caps r n) rest pos
  | IOpen :: p' => exec p' (pos :: opens) caps rest pos
  | IClose :: p' =>
      match opens with
      | o :: opens' => exec p' opens' ((o, pos) :: caps) rest pos
      | [] => None
      end
  end.

(** The leftmost offset at which the pattern matches. *)
Fixpoint find_from (p : list item) (rest : string) (pos : nat)
  : option (nat * result) :=
  match exec p [] [] rest pos with
  | Some r => Some (pos, r)
  | None =>
      match rest with
      | String _ rest' => find_from p rest' (S pos)
      | EmptyString => None
      end
  end.

Definition slice (s : string) (lo hi : nat) : string :=
  substring lo (hi - lo) s.

(** [Regexp.FindStringSubmatch]: [nil] (the empty list) when nothing
    matches, else the match followed by the text of each group. *)
Definition FindStringSubmatch (p : list item) (s : string) : list string :=
  match find_from p s 0 with
  | None => []
  | Some (start, (stop, caps)) =>
      slice s start stop :: map (fun c => slice s (fst c) (snd c)) caps
  end.

End regexp.

(** ** Errors

    A Go [error] is compared by identity in [getKMSFromCredentialPath]:
    the three package-level values are constructors of their own, and an
    error made on the spot by [errors.New] or [fmt.Errorf], or coming out
    of a library, is never equal to one of them. *)

Inductive error :=
| errCred
| errBadFile
| errCredCSV
| errorsNew (msg : string)
| Errorf (format : string) (args : list fmtArg)
| libError (pkg msg : string)
with fmtArg :=
| ArgString (s : string)
| ArgError (e : error).

(** The text of the three package-level errors. *)
Definition sentinelText (e : error) : option string :=
  match e with
  | errCred => Some "invalid credential path"
  | errBadFile => Some "cannot open credential path"
  | errCredCSV => Some "malformed credential CSV file"
  | _ => None
  end.

(** ** A monad for code that threads a state and may fail

    A failing step keeps the state it has reached: an object mutated
    before the error stays mutated. *)

Definition M (S A : Type) : Type := S -> (error + A) * S.

Definition ret {S A} (a : A) : M S A := fun s => (inr a, s).
Definition fail {S A} (e : error) : M S A := fun s => (inl e, s).
Definition bind {S A B} (m : M S A) (k : A -> M S B) : M S B :=
  fun s =>
    match m s with
    | (inl e, s') => (inl e, s')
    | (inr a, s') => k a s'
    end.
Definition get {S} : M S S := fun s => (inr s, s).
Definition put {S} (s : S) : M S unit := fun _ => (inr tt, s).
Definition liftE {S A} (r : error + A) : M S A := fun s => (r, s).

Declare Scope go_scope.
Delimit Scope go_scope with go.
Notation "x <- m ;; k" := (bind m (fun x => k))
  (at level 61, m at next level, right associativity) : go_scope.
Notation "m ;;; k" := (bind m (fun _ => k))
  (at level 61, right associativity) : go_scope.

(** ** The data of the package *)

Definition awsPrefix : string := "aws-kms://".

(** [time.Duration] counts nanoseconds. *)
Definition defaultTimeout : Z := 5 * 1000000000.

(** [EncryptionContextName] is a [uint]; 0 is its zero value, "not set". *)
Definition EncryptionContextName := nat.
Definition AssociatedData : EncryptionContextName := 1.
Definition LegacyAdditionalData : EncryptionContextName := 2.

(** The map [encryptionContextNames], as the list of its entries. *)
Definition encryptionContextNames : list (EncryptionContextName * string) :=
  [ (AssociatedData, "associatedData");
    (LegacyAdditionalData, "additionalData") ].

Fixpoint lookupName (m : list (EncryptionContextName * string))
         (n : EncryptionContextName) : option string :=
  match m with
  | [] => None
  | (k, v) :: m' => if Nat.eqb k n then Some v else lookupName m' n
  end.

Definition valid (n : EncryptionContextName) : bool :=
  match lookupName encryptionContextNames n with
  | Some _ => true
  | None => false
  end.

Definition strconv_Itoa (n : nat) : string :=
  NilEmpty.string_of_uint (Nat.to_uint n).

Definition EncryptionContextName_String (n : EncryptionContextName) : string :=
  if negb (valid n) then "unrecognized value " ++ strconv_Itoa n
  else match lookupName encryptionContextNames n with
       | Some s => s
       | None => ""
       end.

(** Credentials of the legacy SDK, and the [aws.Config] built from them. *)
Inductive Credentials :=
| NewStaticCredentialsFromCreds (AccessKeyID SecretAccessKey : string)
| NewSharedCredentials (filename profile : string).

Record awsConfig := {
  cfgCredentials : option Credentials;
  cfgRegion : string }.

(** A legacy KMS handle ([kmsiface.KMSAPI]): one the caller made, known by
    a tag, or one made here by [kms.New], known by its rank among the
    handles this program has constructed. *)
Inductive KMSAPI :=
| callerKMS (tag : nat)
| kms_New (rank : nat) (cfg : awsConfig).

(** Load options and KMS options of the newer SDK are functions the
    caller supplies; only their identity matters here. *)
Definition LoadOption := nat.
Definition KmsOption := nat.

Inductive V2KMS :=
| callerV2KMS (tag : nat)
| kmsv2_NewFromConfig (rank : nat) (loadOpts : list LoadOption)
                      (kmsOpts : list KmsOption).

Record v2Client := {
  v2kms : option V2KMS;
  kmsOpts : list KmsOption;
  loadOpts : list LoadOption;
  timeout : Z }.

(** The adapters returned by [newAWSAEAD] and [newAWSV2AEAD]: they keep
    their arguments. *)
Inductive AEAD :=
| newAWSAEAD (keyURI : string) (kms : KMSAPI) (name : EncryptionContextName)
| newAWSV2AEAD (keyURI : string) (kms : V2KMS) (name : EncryptionContextName)
               (timeout : Z).

(** The two values [awsClient.builder] takes: the closure made in
    [NewClientWithOptions], which captures [uriPrefix] and the client
    itself, and the method value [v.BuildAead], which owns [v]. *)
Inductive Builder :=
| builderV1 (uriPrefix : string)
| builderV2 (v : v2Client).

Record awsClient := {
  keyURIPrefix : string;
  kms : option KMSAPI;
  encryptionContextName : EncryptionContextName;
  builder : Builder }.

Inductive V2ClientOption :=
| WithV2KMS (k : option V2KMS)
| WithAPITimeout (t : Z)
| WithLoadOptions (opts : list LoadOption)
| WithKMSOptions (opts : list KmsOption).

Inductive ClientOption :=
| WithCredentialPath (credentialPath : string)
| WithKMS (k : option KMSAPI)
| WithEncryptionContextName (name : EncryptionContextName)
| UseV2
| WithV2KMSOptions (opts : list V2ClientOption).

(** What lies outside the package. *)
Record Env := {
  (** [Map(unicode.ToLower, s)] for a string with a byte above 0x7F *)
  unicode_ToLower : string -> string;
  (** [os.Open]: the contents of the file, or nothing *)
  os_Open : string -> option string;
  (** [csv.NewReader(f).ReadAll()] on the contents of a file: the
      records, or the text of the reader's error *)
  csv_ReadAll : string -> string + list (list string);
  (** [session.NewSession]: the text of the error it returns, if any *)
  session_NewSession : awsConfig -> option string;
  (** [config.LoadDefaultConfig] under a time budget: the text of its
      error, if any *)
  config_LoadDefaultConfig : Z -> list LoadOption -> option string }.

(** What the program has done to the outside: the number of handles
    constructed so far by [kms.New] and [kmsv2.NewFromConfig], and the
    configurations handed to [session.NewSession], the oldest first. *)
Record World := {
  constructed : nat;
  sessions : list awsConfig }.

(** ** The functions of [aws_kms_client.go] *)

(** The classes [[a-zA-Z0-9-_]] and [[a-z0-9-]] of the pattern. *)
Definition inRange (lo hi : nat) (c : ascii) : bool :=
  let n := nat_of_ascii c in Nat.leb lo n && Nat.leb n hi.

Definition partitionClass (c : ascii) : bool :=
  inRange 97 122 c || inRange 65 90 c || inRange 48 57 c
  || Ascii.eqb c "-"%char || Ascii.eqb c "_"%char.

Definition regionClass (c : ascii) : bool :=
  inRange 97 122 c || inRange 48 57 c || Ascii.eqb c "-"%char.

(** The pattern of [regexp.Compile]: the literal [aws-kms://arn:], a
    group made of [aws] and any number of bytes of the first class, the
    literal [:kms:], a group made of one or more bytes of the second class,
    and a colon. *)
Definition re1 : list regexp.item :=
  [ regexp.ILit "aws-kms://arn:";
    regexp.IOpen; regexp.ILit "aws"; regexp.IStar partitionClass;
    regexp.IClose;
    regexp.ILit ":kms:";
    regexp.IOpen; regexp.IPlus regionClass; regexp.IClose;
    regexp.ILit ":" ].

(** [getRegion]; the pattern is a constant that compiles, so the error
    branch of [regexp.Compile] is never taken. *)
Definition getRegion (keyURI : string) : error + string :=
  let r := regexp.FindStringSubmatch re1 keyURI in
  if negb (Nat.eqb (List.length r) 3)
  then inl (errorsNew "extracting region from URI failed")
  else inr (nth 2 r "").

Section Program.

Variable E : Env.

Local Open Scope go_scope.

(** [kms.New(session)] and [kmsv2.NewFromConfig]: one more handle. *)
Definition new_kms (cfg : awsConfig) : M World KMSAPI :=
  fun w => (inr (kms_New (constructed w) cfg),
            {| constructed := S (constructed w); sessions := sessions w |}).

Definition new_v2kms (lo : list LoadOption) (ko : list KmsOption)
  : M World V2KMS :=
  fun w => (inr (kmsv2_NewFromConfig (constructed w) lo ko),
            {| constructed := S (constructed w); sessions := sessions w |}).

Definition NewSession (cfg : awsConfig) : M World unit :=
  fun w =>
    let w' := {| constructed := constructed w;
                 sessions := sessions w ++ [cfg] |} in
    match session_NewSession E cfg with
    | Some msg => (inl (libError "session" msg), w')
    | None => (inr tt, w')
    end.

Definition getKMS (uriPrefix : string) : M World KMSAPI :=
  r <- liftE (getRegion uriPrefix) ;;
  let cfg := {| cfgCredentials := None; cfgRegion := r |} in
  NewSession cfg ;;;
  new_kms cfg.

(** [extractCredsCSV]: the access key id and the secret access key. *)
Definition extractCredsCSV (file : string) : error + (string * string) :=
  match os_Open E file with
  | None => inl errBadFile
  | Some f =>
      match csv_ReadAll E f with
      | inl msg => inl (libError "encoding/csv" msg)
      | inr lines =>
          if Nat.ltb 0 (List.length lines)
             && Nat.eqb (List.length (nth 0 lines [])) 1
          then inl (errorsNew "not a valid CSV credential file")
          else if Nat.ltb (List.length lines) 2
          then inl errCredCSV
          else if Nat.ltb (List.length (nth 1 lines [])) 4
          then inl errCredCSV
          else inr (nth 2 (nth 1 lines []) "", nth 3 (nth 1 lines []) "")
      end
  end.

Definition getKMSFromCredentialPath (uriPrefix credentialPath : string)
  : M World KMSAPI :=
  r <- liftE (getRegion uriPrefix) ;;
  if Nat.eqb (String.length credentialPath) 0 then fail errCred
  else
    creds <-
      match extractCredsCSV credentialPath with
      | inr (ak, sk) => ret (NewStaticCredentialsFromCreds ak sk)
      | inl errBadFile => fail errBadFile
      | inl errCredCSV => fail errCredCSV
      | inl _ => ret (NewSharedCredentials credentialPath "default")
      end ;;
    let cfg := {| cfgCredentials := Some creds; cfgRegion := r |} in
    NewSession cfg ;;;
    new_kms cfg.

(** A step on the world, run while a client is being built or used. *)
Definition inWorld {S A} (m : M World A) : M (S * World) A :=
  fun st => let '(r, w') := m (snd st) in (r, (fst st, w')).

(** A step on the object alone. *)
Definition onObject {S A} (m : M S A) : M (S * World) A :=
  fun st => let '(r, s') := m (fst st) in (r, (s', snd st)).

Definition set_kms (k : option KMSAPI) (a : awsClient) : awsClient :=
  {| keyURIPrefix := keyURIPrefix a; kms := k;
     encryptionContextName := encryptionContextName a; builder := builder a |}.

Definition set_encryptionContextName (n : EncryptionContextName)
           (a : awsClient) : awsClient :=
  {| keyURIPrefix := keyURIPrefix a; kms := kms a;
     encryptionContextName := n; builder := builder a |}.

Definition set_builder (b : Builder) (a : awsClient) : awsClient :=
  {| keyURIPrefix := keyURIPrefix a; kms := kms a;
     encryptionContextName := encryptionContextName a; builder := b |}.

Definition set_v2kms (k : option V2KMS) (v : v2Client) : v2Client :=
  {| v2kms := k; kmsOpts := kmsOpts v; loadOpts := loadOpts v;
     timeout := timeout v |}.

Definition set_timeout (t : Z) (v : v2Client) : v2Client :=
  {| v2kms := v2kms v; kmsOpts := kmsOpts v; loadOpts := loadOpts v;
     timeout := t |}.

Definition set_loadOpts (o : list LoadOption) (v : v2Client) : v2Client :=
  {| v2kms := v2kms v; kmsOpts := kmsOpts v; loadOpts := o;
     timeout := timeout v |}.

Definition set_kmsOpts (o : list KmsOption) (v : v2Client) : v2Client :=
  {| v2kms := v2kms v; kmsOpts := o; loadOpts := loadOpts v;
     timeout := timeout v |}.

(** The zero value [var v v2Client]. *)
Definition zero_v2Client : v2Client :=
  {| v2kms := None; kmsOpts := []; loadOpts := []; timeout := 0 |}.

Definition isSome {A} (o : option A) : bool :=
  match o with Some _ => true | None => false end.

(** The options of the newer client, applied to [v]. *)
Definition set_v2 (o : V2ClientOption) : M v2Client unit :=
  v <- get ;;
  match o with
  | WithV2KMS k =>
      if isSome (v2kms v) then fail (errorsNew "V2KMS client already set")
      else put (set_v2kms k v)
  | WithAPITimeout t =>
      if negb (Z.eqb (timeout v) 0) then fail (errorsNew "timeout already set")
      else put (set_timeout t v)
  | WithLoadOptions opts =>
      if Nat.ltb 0 (List.length (loadOpts v))
      then fail (errorsNew "load options already set")
      else put (set_loadOpts opts v)
  | WithKMSOptions opts =>
      if Nat.ltb 0 (List.length (kmsOpts v))
      then fail (errorsNew "KMS options already set")
      else put (set_kmsOpts opts v)
  end.

(** [for _, opt := range opts], stopping at the first error, which is
    wrapped by [wrap]. *)
Fixpoint forOpts {S O} (set1 : O -> M S unit) (wrap : error -> error)
         (opts : list O) : M S unit :=
  match opts with
  | [] => ret tt
  | o :: opts' =>
      fun s =>
        match set1 o s with
        | (inl err, s') => (inl (wrap err), s')
        | (inr _, s') => forOpts set1 wrap opts' s'
        end
  end.

Definition failedSetting (err : error) : error :=
  Errorf "failed setting option: %v" [ArgError err].

(** The options of the client, applied to [a]. *)
Definition set (o : ClientOption) : M (awsClient * World) unit :=
  a <- onObject get ;;
  match o with
  | WithCredentialPath credentialPath =>
      if isSome (kms a)
      then fail (errorsNew
             "WithCredentialPath option cannot be used, KMS client already set")
      else
        k <- inWorld (getKMSFromCredentialPath (keyURIPrefix a)
                                               credentialPath) ;;
        onObject (put (set_kms (Some k) a))
  | WithKMS k =>
      if isSome (kms a)
      then fail (errorsNew
             "WithKMS option cannot be used, KMS client already set")
      else onObject (put (set_kms k a))
  | WithEncryptionContextName name =>
      if negb (valid name)
      then fail (Errorf "invalid EncryptionContextName: %v"
                        [ArgString (EncryptionContextName_String name)])
      else if negb (Nat.eqb (encryptionContextName a) 0)
      then fail (errorsNew "encryptionContextName already set")
      else onObject (put (set_encryptionContextName name a))
  | UseV2 =>
      onObject (put (set_builder (builderV2 zero_v2Client) a))
  | WithV2KMSOptions opts =>
      (* the builder is bound to [v] before the options run on [v]; it
         sees [v] as they leave it, also when one of them fails *)
      let '(r, v) := forOpts set_v2 failedSetting opts zero_v2Client in
      onObject (put (set_builder (builderV2 v) a)) ;;;
      liftE r
  end.

(** The client as [NewClientWithOptions] makes it before any option
    runs: the prefix, no handle, no context name, the legacy builder. *)
Definition emptyClient (uriPrefix : string) : awsClient :=
  {| keyURIPrefix := uriPrefix; kms := None;
     encryptionContextName := 0;
     builder := builderV1 uriPrefix |}.

Definition NewClientWithOptions (uriPrefix : string)
           (opts : list ClientOption) : M World awsClient :=
  if negb (strings.HasPrefix
             (strings.ToLower (unicode_ToLower E) uriPrefix) awsPrefix)
  then fail (Errorf "uriPrefix must start with %q, but got %q"
                    [ArgString awsPrefix; ArgString uriPrefix])
  else
    fun w =>
      let a := emptyClient uriPrefix in
      match forOpts set failedSetting opts (a, w) with
      | (inl err, (_, w')) => (inl err, w')
      | (inr _, (a', w')) =>
          (inr (if Nat.eqb (encryptionContextName a') 0
                then set_encryptionContextName AssociatedData a'
                else a'),
           w')
      end.

(** The deprecated constructors. *)
Definition NewClient (uriPrefix : string) : M World awsClient :=
  NewClientWithOptions uriPrefix
    [WithEncryptionContextName LegacyAdditionalData].

Definition NewClientWithCredentials (uriPrefix credentialPath : string)
  : M World awsClient :=
  NewClientWithOptions uriPrefix
    [WithCredentialPath credentialPath;
     WithEncryptionContextName LegacyAdditionalData].

Definition NewClientWithKMS (uriPrefix : string) (kms : option KMSAPI)
  : M World awsClient :=
  NewClientWithOptions uriPrefix
    [WithKMS kms; WithEncryptionContextName LegacyAdditionalData].

Definition Supported (c : awsClient) (keyURI : string) : bool :=
  strings.HasPrefix keyURI (keyURIPrefix c).

(** The method [BuildAead] of [v2Client], run on its receiver.  The error
    paired with the result of [kmsv2.NewFromConfig] is the constant [nil],
    so the branch that wraps it is never taken and is left out.  After the
    first [match] the handle is set; the last branch on [None] stands for
    the nil dereference Go would meet and is never reached. *)
Definition BuildAead (keyURI : string) (encContextName : EncryptionContextName)
  : M (v2Client * World) AEAD :=
  v <- onObject get ;;
  (if Z.eqb (timeout v) 0
   then onObject (put (set_timeout defaultTimeout v))
   else ret tt) ;;;
  v <- onObject get ;;
  (match v2kms v with
   | None =>
       match config_LoadDefaultConfig E (timeout v) (loadOpts v) with
       | Some msg =>
           fail (Errorf "loading AWS default config: %w"
                        [ArgError (libError "config" msg)])
       | None =>
           kmsClient <- inWorld (new_v2kms (loadOpts v) (kmsOpts v)) ;;
           onObject (put (set_v2kms (Some kmsClient) v))
       end
   | Some _ => ret tt
   end) ;;;
  v <- onObject get ;;
  match v2kms v with
  | Some k => ret (newAWSV2AEAD keyURI k encContextName (timeout v))
  | None => fail (errorsNew "unreachable: nil V2KMS")
  end.

(** The closure [a.builder] of the default, legacy client.  As in
    [BuildAead], the last branch on [None] is never reached. *)
Definition buildV1 (uriPrefix keyURI : string)
           (encContextName : EncryptionContextName)
  : M (awsClient * World) AEAD :=
  a <- onObject get ;;
  (match kms a with
   | None =>
       k <- inWorld (getKMS uriPrefix) ;;
       onObject (put (set_kms (Some k) a))
   | Some _ => ret tt
   end) ;;;
  a <- onObject get ;;
  match kms a with
  | Some k => ret (newAWSAEAD keyURI k encContextName)
  | None => fail (errorsNew "unreachable: nil KMS")
  end.

(** [c.builder(uri, name)]: the closure runs on the client, the method
    value on the [v2Client] it is bound to. *)
Definition callBuilder (keyURI : string) (encContextName : EncryptionContextName)
  : M (awsClient * World) AEAD :=
  fun st =>
    let '(c, w) := st in
    match builder c with
    | builderV1 uriPrefix => buildV1 uriPrefix keyURI encContextName st
    | builderV2 v =>
        let '(r, (v', w')) := BuildAead keyURI encContextName (v, w) in
        (r, (set_builder (builderV2 v') c, w'))
    end.

Definition GetAEAD (keyURI : string) : M (awsClient * World) AEAD :=
  fun st =>
    let c := fst st in
    if negb (Supported c keyURI)
    then (inl (Errorf "keyURI must start with prefix %s, but got %s"
                      [ArgString (keyURIPrefix c); ArgString keyURI]), st)
    else
      let uri := strings.TrimPrefix keyURI awsPrefix in
      match callBuilder uri (encryptionContextName c) st with
      | (inl err, st') =>
          (inl (Errorf "building AEAD: %w" [ArgError err]), st')
      | (inr aead, st') => (inr aead, st')
      end.

End Program.

(** ** Notions used to state the properties *)

(** Every byte of [s] is in the class. *)
Fixpoint allBytes (cls : ascii -> bool) (s : string) : bool :=
  match s with
  | EmptyString => true
  | String c t => cls c && allBytes cls t
  end.

(** [u] splits as text, the literal, a partition beginning with [aws],
    [:kms:], a region that is not empty, a colon and more text: an
    occurrence of the pattern of [getRegion] in [u]. *)
Definition occursIn (u pre part region post : string) : Prop :=
  u = pre ++ "aws-kms://arn:" ++ ("aws" ++ part) ++ ":kms:" ++ region
          ++ ":" ++ post
  /\ allBytes partitionClass part = true
  /\ allBytes regionClass region = true
  /\ region <> "".

(** [NewClientWithOptions] accepts the prefix. *)
Definition accepted (E : Env) (uriPrefix : string) : bool :=
  strings.HasPrefix (strings.ToLower (unicode_ToLower E) uriPrefix) awsPrefix.

(** The last step of [NewClientWithOptions]: the default context name. *)
Definition finish (a : awsClient) : awsClient :=
  if Nat.eqb (encryptionContextName a) 0
  then set_encryptionContextName AssociatedData a else a.

(** The option hands the legacy client a handle: one the caller made, or
    one to be made from a credential file. *)
Definition suppliesHandle (o : ClientOption) : bool :=
  match o with
  | WithKMS (Some _) => true
  | WithCredentialPath _ => true
  | _ => false
  end.

Definition isContextNameOption (o : ClientOption) : bool :=
  match o with
  | WithEncryptionContextName _ => true
  | _ => false
  end.

(** The handle the active strategy of the client holds, if any. *)
Definition activeHandle (c : awsClient) : option (KMSAPI + V2KMS) :=
  match builder c with
  | builderV1 _ => option_map inl (kms c)
  | builderV2 v => option_map inr (v2kms v)
  end.

Definition aeadHandle (a : AEAD) : KMSAPI + V2KMS :=
  match a with
  | newAWSAEAD _ k _ => inl k
  | newAWSV2AEAD _ k _ _ => inr k
  end.

Definition aeadKeyURI (a : AEAD) : string :=
  match a with
  | newAWSAEAD u _ _ => u
  | newAWSV2AEAD u _ _ _ => u
  end.

Definition aeadContextName (a : AEAD) : EncryptionContextName :=
  match a with
  | newAWSAEAD _ _ n => n
  | newAWSV2AEAD _ _ n _ => n
  end.

(** One call of [GetAEAD] after the other on the same client. *)
Fixpoint GetAEADs (E : Env) (keyURIs : list string) (st : awsClient * World)
  : list (error + AEAD) * (awsClient * World) :=
  match keyURIs with
  | [] => ([], st)
  | u :: us =>
      let '(r, st') := GetAEAD E u st in
      let '(rs, st'') := GetAEADs E us st' in
      (r :: rs, st'')
  end.

(** Every adapter among the results holds the handle [h]. *)
Definition allHold (h : KMSAPI + V2KMS) (rs : list (error + AEAD)) : Prop :=
  Forall (fun r => forall aead, r = inr aead -> aeadHandle aead = h) rs.

Definition isError {A} (r : error + A) : bool :=
  match r with inl _ => true | inr _ => false end.

(** The configuration a credential file leads to when it is read as an
    INI file: the section [default] of the shared-credentials provider. *)
Definition sharedConfig (credentialPath region : string) : awsConfig :=
  {| cfgCredentials := Some (NewSharedCredentials credentialPath "default");
     cfgRegion := region |}.

(** The end of [getKMS] and of [getKMSFromCredentialPath]: a session for
    the configuration, then a handle on it. *)
Definition sessionThenKMS (E : Env) (cfg : awsConfig) : M World KMSAPI :=
  bind (NewSession E cfg) (fun _ => new_kms cfg).

(** The credential file makes [getKMSFromCredentialPath] fall back: it
    opens, and either the CSV reader fails or its first record has one
    field. *)
Definition fallsBack (E : Env) (credentialPath : string) : Prop :=
  exists f, os_Open E credentialPath = Some f
    /\ ((exists msg, csv_ReadAll E f = inl msg)
        \/ (exists lines, csv_ReadAll E f = inr lines
              /\ lines <> [] /\ List.length (nth 0 lines []) = 1)).

(** A key URI or prefix in the format the package documents:
    [aws-kms://arn:<partition>:kms:<region>:<path>], the partition being
    [aws] and what follows it. *)
Definition documentedURI (part region path : string) : string :=
  "aws-kms://arn:" ++ ("aws" ++ part) ++ ":kms:" ++ region ++ ":" ++ path.

(** The configuration of a handle built with default credentials, and of
    one built with the keys of a CSV credential file. *)
Definition defaultConfig (region : string) : awsConfig :=
  {| cfgCredentials := None; cfgRegion := region |}.

Definition staticConfig (accessKeyID secretAccessKey region : string)
  : awsConfig :=
  {| cfgCredentials :=
       Some (NewStaticCredentialsFromCreds accessKeyID secretAccessKey);
     cfgRegion := region |}.

(** The world after one more session was asked for, and after one more
    handle was constructed. *)
Definition sessionLogged (cfg : awsConfig) (w : World) : World :=
  {| constructed := constructed w; sessions := sessions w ++ [cfg] |}.

Definition handleBuilt (w : World) : World :=
  {| constructed := S (constructed w); sessions := sessions w |}.

Definition isCredentialPathOption (o : ClientOption) : bool :=
  match o with
  | WithCredentialPath _ => true
  | _ => false
  end.

(** The field of [v2Client] an option of the newer client writes. *)
Inductive v2Field := fieldKMS | fieldTimeout | fieldLoadOpts | fieldKMSOpts.

Definition fieldOf (o : V2ClientOption) : v2Field :=
  match o with
  | WithV2KMS _ => fieldKMS
  | WithAPITimeout _ => fieldTimeout
  | WithLoadOptions _ => fieldLoadOpts
  | WithKMSOptions _ => fieldKMSOpts
  end.

(** The field holds something other than its zero value. *)
Definition fieldSet (f : v2Field) (v : v2Client) : bool :=
  match f with
  | fieldKMS => isSome (v2kms v)
  | fieldTimeout => negb (Z.eqb (timeout v) 0)
  | fieldLoadOpts => Nat.ltb 0 (List.length (loadOpts v))
  | fieldKMSOpts => Nat.ltb 0 (List.length (kmsOpts v))
  end.

(** The option writes something other than the zero value of its field. *)
Definition writesNonZero (o : V2ClientOption) : bool :=
  match o with
  | WithV2KMS k => isSome k
  | WithAPITimeout t => negb (Z.eqb t 0)
  | WithLoadOptions opts => Nat.ltb 0 (List.length opts)
  | WithKMSOptions opts => Nat.ltb 0 (List.length opts)
  end.

(** The time budget [BuildAead] works with. *)
Definition effectiveTimeout (v : v2Client) : Z :=
  if Z.eqb (timeout v) 0 then defaultTimeout else timeout v.

(** The receiver after the first statement of [BuildAead]. *)
Definition defaulted (v : v2Client) : v2Client :=
  if Z.eqb (timeout v) 0 then set_timeout defaultTimeout v else v.

Definition isV2Adapter (a : AEAD) : bool :=
  match a with
  | newAWSV2AEAD _ _ _ _ => true
  | newAWSAEAD _ _ _ => false
  end.

Definition aeadTimeout (a : AEAD) : option Z :=
  match a with
  | newAWSV2AEAD _ _ _ t => Some t
  | newAWSAEAD _ _ _ => None
  end.

Definition isV2Builder (b : Builder) : bool :=
  match b with
  | builderV2 _ => true
  | builderV1 _ => false
  end.

(** What the options keep of a client under construction for [p]. *)
Definition underConstruction (p : string) (a : awsClient) : Prop :=
  keyURIPrefix a = p
  /\ (encryptionContextName a = 0 \/ valid (encryptionContextName a) = true)
  /\ (isV2Builder (builder a) = false -> builder a = builderV1 p).

(** *** Environments and inputs for the examples *)

Definition w0 : World := {| constructed := 0; sessions := [] |}.

(** One file per shape of credential file; every library call succeeds. *)
Definition exampleFiles (path : string) : option string :=
  if String.eqb path "credentials.csv" then Some "csv"
  else if String.eqb path "credentials.cred" then Some "ini"
  else if String.eqb path "access_keys_bad.csv" then Some "bad"
  else if String.eqb path "quote.csv" then Some "quote"
  else None.

Definition exampleCSV (contents : string) : string + list (list string) :=
  if String.eqb contents "csv"
  then inr [ ["User name"; "Password"; "Access key ID";
              "Secret access key"; "Console login link"];
             ["tink"; "pw"; "AKIAEXAMPLE"; "SECRETEXAMPLE"; "https://x"] ]
  else if String.eqb contents "ini"
  then inr [ ["[default]"]; ["aws_access_key_id = AKIAEXAMPLE"];
             ["aws_secret_access_key = SECRETEXAMPLE"] ]
  else if String.eqb contents "bad"
  then inr [ ["User name"; "Access key ID"]; ["tink"; "AKIAEXAMPLE"] ]
  else inl "record on line 2: wrong number of fields".

Definition exampleEnv : Env :=
  {| unicode_ToLower := fun s => s;
     os_Open := exampleFiles;
     csv_ReadAll := exampleCSV;
     session_NewSession := fun _ => None;
     config_LoadDefaultConfig := fun _ _ => None |}.

Definition examplePrefix : string := "aws-kms://arn:aws:kms:us-east-2:".
Definition exampleKeyURI : string :=
  "aws-kms://arn:aws:kms:us-east-2:235739564943:key/3ee50705".

(** A prefix whose scheme is in capitals, and a key under it. *)
Definition capitalPrefix : string := "AWS-KMS://arn:aws:kms:us-east-2:".
Definition capitalKeyURI : string :=
  "AWS-KMS://arn:aws:kms:us-east-2:235739564943:key/3ee50705".

(** A prefix whose scheme is in capitals and which goes on with the
    lowercase scheme. *)
Definition doubledPrefix : string :=
  "AWS-KMS://aws-kms://arn:aws:kms:us-east-2:".
Definition doubledKeyURI : string :=
  "AWS-KMS://aws-kms://arn:aws:kms:us-east-2:235739564943:key/3ee50705".

(** * Properties *)

(** ** Byte strings *)

Section StringFacts.

Lemma append_assoc (a b c : string) : (a ++ b) ++ c = a ++ (b ++ c).
Proof. induction a as [|x a IH]; simpl; [reflexivity | now rewrite IH]. Qed.

Lemma append_nil_r (a : string) : a ++ "" = a.
Proof. induction a as [|x a IH]; simpl; [reflexivity | now rewrite IH]. Qed.

Lemma length_append (a b : string) :
  String.length (a ++ b) = String.length a + String.length b.
Proof. induction a as [|x a IH]; simpl; [reflexivity | now rewrite IH]. Qed.

Lemma substring_all (s : string) : substring 0 (String.length s) s = s.
Proof. induction s as [|x s IH]; simpl; [reflexivity | now rewrite IH]. Qed.

Lemma substring_prefix (a b : string) :
  substring 0 (String.length a) (a ++ b) = a.
Proof.
  induction a as [|x a IH]; simpl.
  - now destruct b.
  - now rewrite IH.
Qed.

Lemma substring_skip (a b : string) (n m : nat) :
  substring (String.length a + n) m (a ++ b) = substring n m b.
Proof. induction a as [|x a IH]; simpl; [reflexivity | exact IH]. Qed.

Lemma substring_middle (a b c : string) :
  substring (String.length a) (String.length b) (a ++ b ++ c) = b.
Proof.
  rewrite <- (Nat.add_0_r (String.length a)), substring_skip.
  apply substring_prefix.
Qed.

Lemma substring_suffix (a b : string) :
  substring (String.length a) (String.length (a ++ b) - String.length a)
            (a ++ b) = b.
Proof.
  rewrite length_append.
  replace (String.length a + String.length b - String.length a)
    with (String.length b) by lia.
  rewrite <- (Nat.add_0_r (String.length a)), substring_skip.
  apply substring_all.
Qed.

Lemma substring_split (s : string) (n : nat) :
  n <= String.length s ->
  s = substring 0 n s ++ substring n (String.length s - n) s.
Proof.
  revert n; induction s as [|x s IH]; intros [|n] Hn; simpl in *;
    try reflexivity; try lia.
  - now rewrite substring_all.
  - f_equal. apply IH. lia.
Qed.

Lemma HasPrefix_append (p t : string) : strings.HasPrefix (p ++ t) p = true.
Proof.
  unfold strings.HasPrefix.
  rewrite substring_prefix, String.eqb_refl, length_append.
  rewrite andb_true_r. apply Nat.leb_le. lia.
Qed.

Lemma HasPrefix_true (s p : string) :
  strings.HasPrefix s p = true <-> exists t, s = p ++ t.
Proof.
  split.
  - unfold strings.HasPrefix. intros H.
    apply andb_true_iff in H. destruct H as [Hl He].
    apply Nat.leb_le in Hl. apply String.eqb_eq in He.
    exists (substring (String.length p) (String.length s - String.length p) s).
    rewrite <- He at 1. now apply substring_split.
  - intros [t ->]. apply HasPrefix_append.
Qed.

Lemma TrimPrefix_append (p t : string) : strings.TrimPrefix (p ++ t) p = t.
Proof.
  unfold strings.TrimPrefix. rewrite HasPrefix_append.
  apply substring_suffix.
Qed.

Lemma TrimPrefix_none (s p : string) :
  strings.HasPrefix s p = false -> strings.TrimPrefix s p = s.
Proof. unfold strings.TrimPrefix. now intros ->. Qed.

Lemma allBytes_append (cls : ascii -> bool) (a b : string) :
  allBytes cls (a ++ b) = allBytes cls a && allBytes cls b.
Proof.
  induction a as [|x a IH]; simpl; [reflexivity|].
  now rewrite IH, andb_assoc.
Qed.

End StringFacts.

(** ** The matcher *)

Section MatcherFacts.

Import regexp.

Variable k : string -> nat -> option result.

Lemma lit_k_some (s rest : string) (pos : nat) (r : result) :
  lit_k s k rest pos = Some r ->
  exists rest', rest = s ++ rest' /\ k rest' (pos + String.length s) = Some r.
Proof.
  revert rest pos; induction s as [|c s IH]; intros rest pos H; simpl in *.
  - exists rest. now rewrite Nat.add_0_r.
  - destruct rest as [|d rest]; [discriminate|].
    destruct (Ascii.eqb_spec c d) as [->|]; [|discriminate].
    apply IH in H. destruct H as (rest' & -> & H).
    exists rest'. split; [reflexivity|].
    now rewrite <- Nat.add_succ_comm.
Qed.

Lemma lit_k_append (s rest : string) (pos : nat) :
  lit_k s k (s ++ rest) pos = k rest (pos + String.length s).
Proof.
  revert pos; induction s as [|c s IH]; intros pos; simpl.
  - now rewrite Nat.add_0_r.
  - now rewrite Ascii.eqb_refl, IH, <- Nat.add_succ_comm.
Qed.

Lemma star_k_some (cls : ascii -> bool) (rest : string) (pos : nat)
      (r : result) :
  star_k cls k rest pos = Some r ->
  exists xs rest', rest = xs ++ rest' /\ allBytes cls xs = true
    /\ k rest' (pos + String.length xs) = Some r.
Proof.
  revert pos; induction rest as [|c rest IH]; intros pos H; simpl in H.
  - exists "", "". now rewrite Nat.add_0_r.
  - destruct (cls c) eqn:Hc.
    + destruct (star_k cls k rest (S pos)) as [r'|] eqn:Hs.
      * injection H as ->. apply IH in Hs.
        destruct Hs as (xs & rest' & -> & Hall & Hk).
        exists (String c xs), rest'. simpl. rewrite Hc, Hall.
        now rewrite <- Nat.add_succ_comm.
      * exists "", (String c rest). now rewrite Nat.add_0_r.
    + exists "", (String c rest). now rewrite Nat.add_0_r.
Qed.

Lemma star_k_here (cls : ascii -> bool) (rest : string) (pos : nat) :
  k rest pos <> None -> star_k cls k rest pos <> None.
Proof.
  intros H. destruct rest as [|c rest]; simpl; [exact H|].
  destruct (cls c); [|exact H].
  destruct (star_k cls k rest (S pos)); [discriminate | exact H].
Qed.

Lemma star_k_complete (cls : ascii -> bool) (xs rest : string) (pos : nat) :
  allBytes cls xs = true ->
  k rest (pos + String.length xs) <> None ->
  star_k cls k (xs ++ rest) pos <> None.
Proof.
  revert pos; induction xs as [|c xs IH]; intros pos Hall Hk; simpl in *.
  - apply star_k_here. now rewrite Nat.add_0_r in Hk.
  - apply andb_true_iff in Hall. destruct Hall as [Hc Hall].
    rewrite Hc.
    assert (Hs : star_k cls k (xs ++ rest) (S pos) <> None).
    { apply IH; [exact Hall|]. now rewrite Nat.add_succ_comm. }
    destruct (star_k cls k (xs ++ rest) (S pos)); [discriminate | tauto].
Qed.

Lemma plus_k_some (cls : ascii -> bool) (rest : string) (pos : nat)
      (r : result) :
  plus_k cls k rest pos = Some r ->
  exists xs rest', rest = xs ++ rest' /\ allBytes cls xs = true
    /\ xs <> "" /\ k rest' (pos + String.length xs) = Some r.
Proof.
  unfold plus_k. destruct rest as [|c rest]; [discriminate|].
  destruct (cls c) eqn:Hc; [|discriminate].
  intros H. apply star_k_some in H.
  destruct H as (xs & rest' & -> & Hall & Hk).
  exists (String c xs), rest'. simpl. rewrite Hc, Hall.
  repeat split; [discriminate|].
  now rewrite <- Nat.add_succ_comm.
Qed.

Lemma plus_k_complete (cls : ascii -> bool) (xs rest : string) (pos : nat) :
  allBytes cls xs = true -> xs <> "" ->
  k rest (pos + String.length xs) <> None ->
  plus_k cls k (xs ++ rest) pos <> None.
Proof.
  destruct xs as [|c xs]; [tauto|]. simpl. intros Hall _ Hk.
  apply andb_true_iff in Hall. destruct Hall as [Hc Hall]. rewrite Hc.
  apply star_k_complete; [exact Hall|]. now rewrite Nat.add_succ_comm.
Qed.

End MatcherFacts.

Lemma find_from_some (p : list regexp.item) (rest : string) (pos start : nat)
      (r : regexp.result) :
  regexp.find_from p rest pos = Some (start, r) ->
  exists pre rest', rest = pre ++ rest' /\ start = pos + String.length pre
    /\ regexp.exec p [] [] rest' start = Some r.
Proof.
  revert pos; induction rest as [|c rest IH]; intros pos H; simpl in H.
  - destruct (regexp.exec p [] [] "" pos) eqn:He; [|discriminate].
    injection H as -> ->. exists "", "". now rewrite Nat.add_0_r.
  - destruct (regexp.exec p [] [] (String c rest) pos) eqn:He.
    + injection H as -> ->. exists "", (String c rest).
      now rewrite Nat.add_0_r.
    + apply IH in H. destruct H as (pre & rest' & -> & -> & H).
      exists (String c pre), rest'. simpl.
      now rewrite <- Nat.add_succ_comm.
Qed.

Lemma find_from_complete (p : list regexp.item) (pre rest : string)
      (pos : nat) :
  regexp.exec p [] [] rest (pos + String.length pre) <> None ->
  regexp.find_from p (pre ++ rest) pos <> None.
Proof.
  revert pos; induction pre as [|c pre IH]; intros pos H; simpl in *.
  - rewrite Nat.add_0_r in H.
    destruct rest as [|d rest]; simpl;
      destruct (regexp.exec p [] [] _ pos); congruence.
  - destruct (regexp.exec p [] [] (String c (pre ++ rest)) pos);
      [discriminate|].
    apply IH. now rewrite Nat.add_succ_comm.
Qed.

(** ** The region parser *)

Lemma exec_re1_some (rest : string) (pos stop : nat)
      (caps : list (nat * nat)) :
  regexp.exec re1 [] [] rest pos = Some (stop, caps) ->
  exists part region post,
    rest = "aws-kms://arn:" ++ ("aws" ++ part) ++ ":kms:" ++ region
             ++ ":" ++ post
    /\ allBytes partitionClass part = true
    /\ allBytes regionClass region = true
    /\ region <> ""
    /\ caps = [ (pos + 14, pos + 14 + 3 + String.length part);
                (pos + 14 + 3 + String.length part + 5,
                 pos + 14 + 3 + String.length part + 5
                 + String.length region) ].
Proof.
  unfold re1. cbn [regexp.exec]. intros H.
  apply lit_k_some in H. destruct H as (r1 & -> & H).
  apply lit_k_some in H. destruct H as (r2 & -> & H).
  apply star_k_some in H. destruct H as (part & r3 & -> & Hpart & H).
  apply lit_k_some in H. destruct H as (r4 & -> & H).
  apply plus_k_some in H. destruct H as (region & r5 & -> & Hreg & Hne & H).
  apply lit_k_some in H. destruct H as (post & -> & H).
  injection H as _ <-.
  exists part, region, post. rewrite !append_assoc.
  repeat split; assumption.
Qed.

Lemma exec_re1_complete (part region post : string) (pos : nat) :
  allBytes partitionClass part = true ->
  allBytes regionClass region = true ->
  region <> "" ->
  regexp.exec re1 [] []
    ("aws-kms://arn:" ++ ("aws" ++ part) ++ ":kms:" ++ region ++ ":" ++ post)
    pos <> None.
Proof.
  intros Hpart Hreg Hne. unfold re1. cbn [regexp.exec].
  rewrite lit_k_append, append_assoc, lit_k_append.
  apply star_k_complete; [exact Hpart|].
  rewrite lit_k_append.
  apply plus_k_complete; [exact Hreg | exact Hne |].
  rewrite lit_k_append. discriminate.
Qed.

Lemma slice_region (pre part region post : string) :
  regexp.slice
    (pre ++ "aws-kms://arn:" ++ ("aws" ++ part) ++ ":kms:" ++ region
         ++ ":" ++ post)
    (0 + String.length pre + 14 + 3 + String.length part + 5)
    (0 + String.length pre + 14 + 3 + String.length part + 5
     + String.length region) = region.
Proof.
  unfold regexp.slice.
  replace (0 + String.length pre + 14 + 3 + String.length part + 5
           + String.length region
           - (0 + String.length pre + 14 + 3 + String.length part + 5))
    with (String.length region) by lia.
  replace (0 + String.length pre + 14 + 3 + String.length part + 5)
    with (String.length (pre ++ "aws-kms://arn:" ++ ("aws" ++ part)
                             ++ ":kms:")).
  - rewrite <- (substring_middle
                  (pre ++ "aws-kms://arn:" ++ ("aws" ++ part) ++ ":kms:")
                  region (":" ++ post)) at 3.
    f_equal. now rewrite !append_assoc.
  - rewrite !length_append. simpl. lia.
Qed.

(** [getRegion] succeeds exactly on the strings in which the pattern
    occurs, and what it returns is the region of an occurrence. *)
Lemma getRegion_sound (u r : string) :
  getRegion u = inr r ->
  exists pre part post, occursIn u pre part r post.
Proof.
  unfold getRegion, regexp.FindStringSubmatch.
  destruct (regexp.find_from re1 u 0) as [[start [stop caps]]|] eqn:Hf;
    [|discriminate].
  apply find_from_some in Hf. destruct Hf as (pre & rest & -> & -> & He).
  apply exec_re1_some in He.
  destruct He as (part & region & post & -> & Hpart & Hreg & Hne & ->).
  cbn [map List.length Nat.eqb negb nth fst snd].
  rewrite slice_region. intros [= <-].
  exists pre, part, post. repeat split; assumption.
Qed.

Lemma getRegion_complete (u pre part region post : string) :
  occursIn u pre part region post -> exists r, getRegion u = inr r.
Proof.
  intros (-> & Hpart & Hreg & Hne).
  pose proof (exec_re1_complete part region post (0 + String.length pre)
                Hpart Hreg Hne) as He.
  apply find_from_complete in He.
  unfold getRegion, regexp.FindStringSubmatch.
  destruct (regexp.find_from re1 _ 0) as [[start [stop caps]]|] eqn:Hf;
    [|tauto].
  apply find_from_some in Hf. destruct Hf as (pre' & rest & _ & -> & Hx).
  apply exec_re1_some in Hx.
  destruct Hx as (part' & region' & post' & _ & _ & _ & _ & ->).
  cbn [map List.length Nat.eqb negb nth]. eauto.
Qed.

Lemma getRegion_error (u : string) (e : error) :
  getRegion u = inl e -> e = errorsNew "extracting region from URI failed".
Proof.
  unfold getRegion.
  destruct (negb _); intros H; [now injection H | discriminate].
Qed.

Lemma find_from_first (p : list regexp.item) (rest : string) (pos start : nat)
      (r : regexp.result) :
  regexp.find_from p rest pos = Some (start, r) ->
  forall pre1 rest1,
    rest = pre1 ++ rest1 -> pos + String.length pre1 < start ->
    regexp.exec p [] [] rest1 (pos + String.length pre1) = None.
Proof.
  revert pos; induction rest as [|c rest IH]; intros pos H pre1 rest1 Hr Hlt;
    simpl in H.
  - destruct (regexp.exec p [] [] "" pos); [|discriminate].
    injection H as -> _. lia.
  - destruct (regexp.exec p [] [] (String c rest) pos) eqn:He.
    + injection H as -> _. lia.
    + destruct pre1 as [|d pre1]; simpl in Hr.
      * subst rest1. simpl. now rewrite Nat.add_0_r.
      * injection Hr as _ ->. simpl. rewrite <- Nat.add_succ_comm.
        apply (IH (S pos) H); [reflexivity|].
        simpl in Hlt. lia.
Qed.

Lemma getRegion_leftmost (u r : string) :
  getRegion u = inr r ->
  exists pre part post,
    occursIn u pre part r post
    /\ forall pre' part' r' post',
         occursIn u pre' part' r' post' ->
         String.length pre <= String.length pre'.
Proof.
  unfold getRegion, regexp.FindStringSubmatch.
  destruct (regexp.find_from re1 u 0) as [[start [stop caps]]|] eqn:Hf;
    [|discriminate].
  pose proof (find_from_first _ _ _ _ _ Hf) as Hfirst.
  apply find_from_some in Hf. destruct Hf as (pre & rest & -> & -> & He).
  apply exec_re1_some in He.
  destruct He as (part & region & post & -> & Hpart & Hreg & Hne & ->).
  cbn [map List.length Nat.eqb negb nth fst snd].
  rewrite slice_region. intros [= <-].
  exists pre, part, post. split; [repeat split; assumption|].
  intros pre' part' r' post' (Hu & Hp' & Hr' & Hn').
  destruct (Nat.le_gt_cases (String.length pre) (String.length pre'))
    as [Hle|Hgt]; [exact Hle|].
  exfalso.
  apply (exec_re1_complete part' r' post' (0 + String.length pre') Hp' Hr' Hn').
  apply Hfirst; [exact Hu | simpl; lia].
Qed.

(** ** The options *)

Section OptionFacts.

Lemma forOpts_invariant {S O : Type} (P : S -> Prop) (set1 : O -> M S unit)
      (wrap : error -> error) (opts : list O) :
  (forall o s r s', P s -> set1 o s = (r, s') -> P s') ->
  forall s r s', P s -> forOpts set1 wrap opts s = (r, s') -> P s'.
Proof.
  intros Hstep. induction opts as [|o opts IH]; intros s r s' Hs H; simpl in H.
  - unfold ret in H. now injection H as _ <-.
  - destruct (set1 o s) as [[e|[]] s1] eqn:H1.
    + injection H as _ <-. eapply Hstep; eauto.
    + eapply IH; [|exact H]. eapply Hstep; eauto.
Qed.

Lemma forOpts_app {S O : Type} (set1 : O -> M S unit) (wrap : error -> error)
      (l1 l2 : list O) (s : S) :
  forOpts set1 wrap (l1 ++ l2) s =
  match forOpts set1 wrap l1 s with
  | (inl e, s') => (inl e, s')
  | (inr _, s') => forOpts set1 wrap l2 s'
  end.
Proof.
  revert s; induction l1 as [|o l1 IH]; intros s; simpl.
  - reflexivity.
  - destruct (set1 o s) as [[e|[]] s1]; [reflexivity | apply IH].
Qed.

Lemma forOpts_wrapped {S O : Type} (set1 : O -> M S unit)
      (opts : list O) (s s' : S) (e : error) :
  forOpts set1 failedSetting opts s = (inl e, s') ->
  exists err, e = failedSetting err.
Proof.
  revert s; induction opts as [|o opts IH]; intros s H; simpl in H.
  - discriminate.
  - destruct (set1 o s) as [[e1|[]] s1].
    + injection H as <- _. eauto.
    + eauto.
Qed.

End OptionFacts.

Section SetFacts.

Variable E : Env.

Ltac run_set :=
  unfold set, bind, onObject, inWorld, get, put, fail, ret, liftE;
  cbv beta iota delta [fst snd].

Lemma valid_names (n : EncryptionContextName) :
  valid n = true <-> n = AssociatedData \/ n = LegacyAdditionalData.
Proof.
  unfold valid, AssociatedData, LegacyAdditionalData.
  destruct n as [|[|[|n]]]; simpl; split; intros H;
    try discriminate; try reflexivity; auto;
    destruct H as [H|H]; discriminate.
Qed.

(** What one option does to the client, option by option. *)
Lemma set_cases (o : ClientOption) (a a' : awsClient) (w w' : World)
      (r : error + unit) :
  set E o (a, w) = (r, (a', w')) ->
  match o with
  | WithCredentialPath credentialPath =>
      (isSome (kms a) = true /\ isError r = true /\ a' = a /\ w' = w)
      \/ (kms a = None /\
          exists rk, getKMSFromCredentialPath E (keyURIPrefix a)
                       credentialPath w = (rk, w')
            /\ match rk with
               | inl e => r = inl e /\ a' = a
               | inr k => r = inr tt /\ a' = set_kms (Some k) a
               end)
  | WithKMS k =>
      w' = w /\
      ((isSome (kms a) = true /\ isError r = true /\ a' = a)
       \/ (kms a = None /\ r = inr tt /\ a' = set_kms k a))
  | WithEncryptionContextName name =>
      w' = w /\
      ((isError r = true /\ a' = a
        /\ (valid name = false \/ encryptionContextName a <> 0))
       \/ (valid name = true /\ encryptionContextName a = 0 /\ r = inr tt
           /\ a' = set_encryptionContextName name a))
  | UseV2 =>
      w' = w /\ r = inr tt /\ a' = set_builder (builderV2 zero_v2Client) a
  | WithV2KMSOptions opts =>
      w' = w /\
      exists v, forOpts set_v2 failedSetting opts zero_v2Client = (r, v)
        /\ a' = set_builder (builderV2 v) a
  end.
Proof.
  destruct o as [path|k|name| |opts]; run_set.
  - destruct (kms a) as [k0|] eqn:Hk; cbn [isSome].
    + intros [= <- <- <-]. left. auto.
    + destruct (getKMSFromCredentialPath E (keyURIPrefix a) path w)
        as [[e|k] w1] eqn:Hg; intros [= <- <- <-]; right;
        (split; [reflexivity|]); eexists; (split; [reflexivity|]);
        cbv iota; auto.
  - destruct (kms a) as [k0|] eqn:Hk; cbn [isSome];
      intros [= <- <- <-]; auto.
  - destruct (valid name) eqn:Hv; cbn [negb].
    + destruct (Nat.eqb_spec (encryptionContextName a) 0) as [H0|H0];
        cbn [negb]; intros [= <- <- <-]; (split; [reflexivity|]);
        [right | left]; auto.
    + intros [= <- <- <-]. split; [reflexivity|]. left; auto.
  - intros [= <- <- <-]. auto.
  - destruct (forOpts set_v2 failedSetting opts zero_v2Client) as [r0 v] eqn:Hf.
    cbn [fst snd]. destruct r0 as [e|[]]; intros [= <- <- <-];
      split; try reflexivity; eexists; split; reflexivity.
Qed.

Ltac break :=
  repeat match goal with
         | H : _ /\ _ |- _ => destruct H
         | H : _ \/ _ |- _ => destruct H
         | H : exists _, _ |- _ => destruct H
         | H : match ?x with inl _ => _ | inr _ => _ end |- _ => destruct x
         end;
  subst.

Lemma set_keyURIPrefix (o : ClientOption) (a a' : awsClient) (w w' : World)
      (r : error + unit) :
  set E o (a, w) = (r, (a', w')) -> keyURIPrefix a' = keyURIPrefix a.
Proof.
  intros H. apply set_cases in H. destruct o; break; reflexivity.
Qed.

(** A handle, once set, stays. *)
Lemma set_kms_kept (o : ClientOption) (a a' : awsClient) (w w' : World)
      (r : error + unit) (k : KMSAPI) :
  set E o (a, w) = (r, (a', w')) -> kms a = Some k -> kms a' = Some k.
Proof.
  intros H Hk. apply set_cases in H.
  destruct o; break; try assumption; congruence.
Qed.

(** A context name, once set, stays. *)
Lemma set_name_kept (o : ClientOption) (a a' : awsClient) (w w' : World)
      (r : error + unit) :
  set E o (a, w) = (r, (a', w')) -> encryptionContextName a <> 0 ->
  encryptionContextName a' = encryptionContextName a.
Proof.
  intros H Hn. apply set_cases in H.
  destruct o; break; try reflexivity; congruence.
Qed.

(** Only [WithEncryptionContextName] touches the context name. *)
Lemma set_name_other (o : ClientOption) (a a' : awsClient) (w w' : World)
      (r : error + unit) :
  set E o (a, w) = (r, (a', w')) -> isContextNameOption o = false ->
  encryptionContextName a' = encryptionContextName a.
Proof.
  intros H Ho. apply set_cases in H.
  destruct o; try discriminate; break; reflexivity.
Qed.

(** An option that supplies a handle fails when there is one, and leaves
    one when it succeeds. *)
Lemma set_supplier (o : ClientOption) (a a' : awsClient) (w w' : World)
      (r : error + unit) :
  set E o (a, w) = (r, (a', w')) -> suppliesHandle o = true ->
  (isSome (kms a) = true -> isError r = true)
  /\ (r = inr tt -> isSome (kms a') = true).
Proof.
  intros H Ho. apply set_cases in H.
  destruct o as [path|[k|]|name| |opts]; try discriminate; break;
    split; intros Hx; try assumption; try reflexivity; try discriminate;
    try match goal with
        | Hn : kms _ = None, Hs : isSome (kms _) = true |- _ =>
            rewrite Hn in Hs; discriminate
        end.
Qed.

(** [WithEncryptionContextName] fails when a name is set, and leaves one
    when it succeeds. *)
Lemma set_name_option (name : EncryptionContextName) (a a' : awsClient)
      (w w' : World) (r : error + unit) :
  set E (WithEncryptionContextName name) (a, w) = (r, (a', w')) ->
  (encryptionContextName a <> 0 -> isError r = true)
  /\ (r = inr tt -> encryptionContextName a' <> 0).
Proof.
  intros H. apply set_cases in H. break; split; intros Hx;
    try assumption; try discriminate; try congruence;
    try (subst r; discriminate).
  cbn. match goal with
  | Hv : valid _ = true |- _ =>
      apply valid_names in Hv; destruct Hv; subst; discriminate
  end.
Qed.

End SetFacts.

(** ** Building a client *)

Section BuildFacts.

Variable E : Env.

Lemma NewClientWithOptions_eq (p : string) (opts : list ClientOption)
      (w : World) :
  NewClientWithOptions E p opts w =
  if accepted E p then
    match forOpts (set E) failedSetting opts (emptyClient p, w) with
    | (inl err, (_, w')) => (inl err, w')
    | (inr _, (a', w')) => (inr (finish a'), w')
    end
  else (inl (Errorf "uriPrefix must start with %q, but got %q"
                    [ArgString awsPrefix; ArgString p]), w).
Proof.
  unfold NewClientWithOptions, accepted, finish, fail.
  now destruct (strings.HasPrefix _ awsPrefix).
Qed.

Lemma NewClientWithOptions_ok (p : string) (opts : list ClientOption)
      (w w' : World) (c : awsClient) :
  NewClientWithOptions E p opts w = (inr c, w') ->
  accepted E p = true
  /\ exists a', forOpts (set E) failedSetting opts (emptyClient p, w)
                = (inr tt, (a', w'))
       /\ c = finish a'.
Proof.
  rewrite NewClientWithOptions_eq.
  destruct (accepted E p); [|discriminate].
  destruct (forOpts (set E) failedSetting opts (emptyClient p, w))
    as [[e|[]] [a' w1]]; intros [= <- <-]; eauto.
Qed.

Lemma NewClientWithOptions_error (p : string) (opts : list ClientOption)
      (w : World) :
  isError (fst (forOpts (set E) failedSetting opts (emptyClient p, w))) = true ->
  isError (fst (NewClientWithOptions E p opts w)) = true.
Proof.
  rewrite NewClientWithOptions_eq.
  destruct (accepted E p); [|reflexivity].
  destruct (forOpts (set E) failedSetting opts (emptyClient p, w))
    as [[e|[]] [a' w1]]; simpl; auto.
Qed.

Lemma finish_keyURIPrefix (a : awsClient) :
  keyURIPrefix (finish a) = keyURIPrefix a.
Proof. unfold finish. now destruct (Nat.eqb _ 0). Qed.

Lemma finish_kms (a : awsClient) : kms (finish a) = kms a.
Proof. unfold finish. now destruct (Nat.eqb _ 0). Qed.

Lemma finish_build (a : awsClient) : builder (finish a) = builder a.
Proof. unfold finish. now destruct (Nat.eqb _ 0). Qed.

Lemma forOpts_keyURIPrefix (opts : list ClientOption) (a a' : awsClient)
      (w w' : World) (r : error + unit) :
  forOpts (set E) failedSetting opts (a, w) = (r, (a', w')) ->
  keyURIPrefix a' = keyURIPrefix a.
Proof.
  intros H.
  apply (forOpts_invariant
           (fun s => keyURIPrefix (fst s) = keyURIPrefix a)
           (set E) failedSetting opts) with (s := (a, w)) (r := r)
           (s' := (a', w')); [|reflexivity|exact H].
  intros o [a1 w1] r1 [a2 w2] H1 H2. simpl in *.
  rewrite <- H1. eapply set_keyURIPrefix; eauto.
Qed.

(** An option that fails wherever [P] holds makes the loop fail, when the
    options keep [P]. *)
Lemma forOpts_blocked {S O : Type} (P : S -> Prop) (set1 : O -> M S unit)
      (wrap : error -> error) (o : O) :
  (forall o1 s r s', P s -> set1 o1 s = (r, s') -> P s') ->
  (forall s, P s -> isError (fst (set1 o s)) = true) ->
  forall l1 l2 s, P s ->
    isError (fst (forOpts set1 wrap (l1 ++ o :: l2) s)) = true.
Proof.
  intros Hkeep Hfail l1 l2. induction l1 as [|o1 l1 IH]; intros s Hs; simpl.
  - specialize (Hfail s Hs). destruct (set1 o s) as [[e|[]] s1];
      [reflexivity | discriminate].
  - destruct (set1 o1 s) as [[e|[]] s1] eqn:H1; [reflexivity|].
    apply IH. eapply Hkeep; eauto.
Qed.

(** Two options of which the first, when it succeeds, brings about [P]. *)
Lemma forOpts_twice {S O : Type} (P : S -> Prop) (set1 : O -> M S unit)
      (wrap : error -> error) (o1 o2 : O) :
  (forall o s r s', P s -> set1 o s = (r, s') -> P s') ->
  (forall s s', set1 o1 s = (inr tt, s') -> P s') ->
  (forall s, P s -> isError (fst (set1 o2 s)) = true) ->
  forall l1 l2 l3 s,
    isError (fst (forOpts set1 wrap (l1 ++ o1 :: l2 ++ o2 :: l3) s)) = true.
Proof.
  intros Hkeep Hset Hfail l1 l2 l3.
  induction l1 as [|o l1 IH]; intros s; simpl.
  - destruct (set1 o1 s) as [[e|[]] s1] eqn:H1; [reflexivity|].
    apply (forOpts_blocked P set1 wrap o2 Hkeep Hfail). eapply Hset; eauto.
  - destruct (set1 o s) as [[e|[]] s1]; [reflexivity | apply IH].
Qed.

End BuildFacts.

(** ** Resolving a key *)

Section ResolveFacts.

Variable E : Env.

Lemma GetAEAD_unsupported (c : awsClient) (w : World) (keyURI : string) :
  Supported c keyURI = false ->
  GetAEAD E keyURI (c, w) =
  (inl (Errorf "keyURI must start with prefix %s, but got %s"
               [ArgString (keyURIPrefix c); ArgString keyURI]), (c, w)).
Proof. unfold GetAEAD. cbn [fst]. now intros ->. Qed.

Lemma GetAEAD_supported (c : awsClient) (w : World) (keyURI : string) :
  Supported c keyURI = true ->
  GetAEAD E keyURI (c, w) =
  match callBuilder E (strings.TrimPrefix keyURI awsPrefix)
                    (encryptionContextName c) (c, w) with
  | (inl err, st') => (inl (Errorf "building AEAD: %w" [ArgError err]), st')
  | (inr aead, st') => (inr aead, st')
  end.
Proof. unfold GetAEAD. cbn [fst]. now intros ->. Qed.

Ltac run_builder :=
  unfold callBuilder, buildV1, BuildAead, getKMS, NewSession, new_kms,
    new_v2kms, bind, onObject, inWorld, get, put, ret, fail, liftE,
    activeHandle, set_timeout, set_v2kms, set_kms, set_builder;
  cbv beta iota delta [fst snd].

Ltac finish_case :=
  repeat split; try reflexivity;
  first [ left; repeat split; reflexivity
        | right; eexists; repeat split; reflexivity ].

(** The builder when the active strategy holds a handle: the handle is
    used, nothing is constructed, no library is called. *)
Lemma callBuilder_reuses (c c' : awsClient) (w w' : World) (uri : string)
      (n : EncryptionContextName) (h : KMSAPI + V2KMS) (r : error + AEAD) :
  activeHandle c = Some h ->
  callBuilder E uri n (c, w) = (r, (c', w')) ->
  w' = w /\ activeHandle c' = Some h
  /\ keyURIPrefix c' = keyURIPrefix c
  /\ encryptionContextName c' = encryptionContextName c
  /\ exists aead, r = inr aead /\ aeadHandle aead = h
       /\ aeadKeyURI aead = uri /\ aeadContextName aead = n.
Proof.
  run_builder. destruct (builder c) as [p|v] eqn:Hb.
  - destruct (kms c) as [k|] eqn:Hk; [|discriminate].
    cbn [option_map]. intros [= <-]. rewrite Hk.
    intros [= <- <- <-]. rewrite Hb, Hk. cbn. eauto 10.
  - destruct (v2kms v) as [k|] eqn:Hk; [|discriminate].
    cbn [option_map]. intros [= <-].
    destruct (Z.eqb (timeout v) 0); cbn; rewrite ?Hk;
      intros [= <- <- <-]; cbn; rewrite ?Hk; eauto 10.
Qed.

(** The builder when the active strategy holds no handle: it fails and
    constructs nothing, or it constructs one handle and keeps it. *)
Lemma callBuilder_constructs (c c' : awsClient) (w w' : World) (uri : string)
      (n : EncryptionContextName) (r : error + AEAD) :
  activeHandle c = None ->
  callBuilder E uri n (c, w) = (r, (c', w')) ->
  keyURIPrefix c' = keyURIPrefix c
  /\ encryptionContextName c' = encryptionContextName c
  /\ ((isError r = true /\ constructed w' = constructed w
       /\ activeHandle c' = None)
      \/ (exists aead, r = inr aead
            /\ constructed w' = S (constructed w)
            /\ activeHandle c' = Some (aeadHandle aead)
            /\ aeadKeyURI aead = uri /\ aeadContextName aead = n)).
Proof.
  run_builder. destruct (builder c) as [p|v] eqn:Hb.
  - destruct (kms c) as [k|] eqn:Hk; [discriminate|]. intros _.
    destruct (getRegion p) as [e|region].
    + intros [= <- <- <-]. rewrite Hb, Hk. cbn. finish_case.
    + destruct (session_NewSession E _) as [msg|].
      * intros [= <- <- <-]. rewrite Hb, Hk. cbn. finish_case.
      * cbn. intros [= <- <- <-]. cbn. finish_case.
  - destruct (v2kms v) as [k|] eqn:Hk; [discriminate|]. intros _.
    destruct (Z.eqb (timeout v) 0); cbn; rewrite ?Hk;
      (destruct (config_LoadDefaultConfig E _ _) as [msg|];
       cbn; intros [= <- <- <-]; cbn; rewrite ?Hk; finish_case).
Qed.

End ResolveFacts.

Section MemoFacts.

Variable E : Env.

Lemma GetAEAD_reuses (c c' : awsClient) (w w' : World) (keyURI : string)
      (h : KMSAPI + V2KMS) (r : error + AEAD) :
  activeHandle c = Some h ->
  GetAEAD E keyURI (c, w) = (r, (c', w')) ->
  w' = w /\ activeHandle c' = Some h
  /\ forall aead, r = inr aead -> aeadHandle aead = h.
Proof.
  intros Hh. destruct (Supported c keyURI) eqn:Hs.
  - rewrite GetAEAD_supported by exact Hs.
    destruct (callBuilder E _ _ (c, w)) as [r0 [c0 w0]] eqn:Hb.
    apply (callBuilder_reuses E _ _ _ _ _ _ h _ Hh) in Hb.
    destruct Hb as (-> & Hh' & _ & _ & aead & -> & Ha & _).
    intros [= <- <- <-]. repeat split; try assumption.
    now intros ? [= <-].
  - rewrite GetAEAD_unsupported by exact Hs.
    intros [= <- <- <-]. repeat split; try assumption. discriminate.
Qed.

Lemma GetAEAD_constructs (c c' : awsClient) (w w' : World) (keyURI : string)
      (r : error + AEAD) :
  activeHandle c = None ->
  GetAEAD E keyURI (c, w) = (r, (c', w')) ->
  (isError r = true /\ constructed w' = constructed w
   /\ activeHandle c' = None)
  \/ (exists aead, r = inr aead /\ constructed w' = S (constructed w)
        /\ activeHandle c' = Some (aeadHandle aead)).
Proof.
  intros Hh. destruct (Supported c keyURI) eqn:Hs.
  - rewrite GetAEAD_supported by exact Hs.
    destruct (callBuilder E _ _ (c, w)) as [r0 [c0 w0]] eqn:Hb.
    apply (callBuilder_constructs E _ _ _ _ _ _ _ Hh) in Hb.
    destruct Hb as (_ & _ & [(Hr & Hw & Hn)|(aead & -> & Hw & Hn & _)]).
    + destruct r0 as [e|a]; [|discriminate].
      intros [= <- <- <-]. left. auto.
    + intros [= <- <- <-]. right. eauto.
  - rewrite GetAEAD_unsupported by exact Hs.
    intros [= <- <- <-]. left. auto.
Qed.

Lemma GetAEADs_reuse (keyURIs : list string) (c c' : awsClient)
      (w w' : World) (h : KMSAPI + V2KMS) (rs : list (error + AEAD)) :
  activeHandle c = Some h ->
  GetAEADs E keyURIs (c, w) = (rs, (c', w')) ->
  w' = w /\ activeHandle c' = Some h /\ allHold h rs.
Proof.
  revert c w rs; induction keyURIs as [|u us IH]; intros c w rs Hh; simpl.
  - intros [= <- <- <-]. repeat split; [assumption | constructor].
  - destruct (GetAEAD E u (c, w)) as [r [c1 w1]] eqn:H1.
    destruct (GetAEADs E us (c1, w1)) as [rs1 [c2 w2]] eqn:H2.
    intros [= <- <- <-].
    apply (GetAEAD_reuses _ _ _ _ _ h _ Hh) in H1.
    destruct H1 as (-> & Hh1 & Hr).
    apply (IH _ _ _ Hh1) in H2. destruct H2 as (-> & Hh2 & Hrs).
    repeat split; try assumption. now constructor.
Qed.

End MemoFacts.

(** ** Credential files *)

Section CredentialFacts.

Variable E : Env.

Lemma extractCredsCSV_unopened (file : string) :
  os_Open E file = None -> extractCredsCSV E file = inl errBadFile.
Proof. unfold extractCredsCSV. now intros ->. Qed.

Lemma extractCredsCSV_unread (file f msg : string) :
  os_Open E file = Some f -> csv_ReadAll E f = inl msg ->
  extractCredsCSV E file = inl (libError "encoding/csv" msg).
Proof. unfold extractCredsCSV. now intros -> ->. Qed.

Lemma extractCredsCSV_one_column (file f : string)
      (lines : list (list string)) :
  os_Open E file = Some f -> csv_ReadAll E f = inr lines ->
  lines <> [] -> List.length (nth 0 lines []) = 1 ->
  extractCredsCSV E file = inl (errorsNew "not a valid CSV credential file").
Proof.
  unfold extractCredsCSV. intros -> -> Hne H1.
  rewrite H1. destruct lines; [tauto | reflexivity].
Qed.

Lemma extractCredsCSV_table (file f : string) (lines : list (list string)) :
  os_Open E file = Some f -> csv_ReadAll E f = inr lines ->
  ~ (lines <> [] /\ List.length (nth 0 lines []) = 1) ->
  extractCredsCSV E file =
  if Nat.ltb (List.length lines) 2 || Nat.ltb (List.length (nth 1 lines [])) 4
  then inl errCredCSV
  else inr (nth 2 (nth 1 lines []) "", nth 3 (nth 1 lines []) "").
Proof.
  unfold extractCredsCSV. intros -> -> Hn.
  destruct (Nat.ltb 0 (List.length lines)
            && Nat.eqb (List.length (nth 0 lines [])) 1) eqn:H1.
  - exfalso. apply Hn. apply andb_true_iff in H1. destruct H1 as [Ha Hb].
    apply Nat.ltb_lt in Ha. apply Nat.eqb_eq in Hb.
    split; [|exact Hb]. intros ->. simpl in Ha. lia.
  - now destruct (Nat.ltb (List.length lines) 2).
Qed.

(** The errors on which [getKMSFromCredentialPath] falls back. *)
Lemma extractCredsCSV_fallsBack (file : string) :
  fallsBack E file <->
  exists e, extractCredsCSV E file = inl e
            /\ e <> errBadFile /\ e <> errCredCSV.
Proof.
  split.
  - intros (f & Hf & [(msg & Hm)|(lines & Hl & Hne & H1)]).
    + rewrite (extractCredsCSV_unread _ _ _ Hf Hm).
      eexists; repeat split; discriminate.
    + rewrite (extractCredsCSV_one_column _ _ _ Hf Hl Hne H1).
      eexists; repeat split; discriminate.
  - intros (e & He & Hb & Hc). unfold fallsBack.
    destruct (os_Open E file) as [f|] eqn:Hf.
    + exists f. split; [reflexivity|].
      destruct (csv_ReadAll E f) as [msg|lines] eqn:Hl; [left; eauto|].
      right. exists lines. split; [reflexivity|].
      assert (Hd : (lines <> [] /\ List.length (nth 0 lines []) = 1)
                   \/ ~ (lines <> [] /\ List.length (nth 0 lines []) = 1)).
      { destruct lines as [|l ls]; [right; tauto|].
        destruct (Nat.eq_dec (List.length (nth 0 (l :: ls) [])) 1);
          [left; split; [discriminate | assumption] | right; tauto]. }
      destruct Hd as [Hd|Hd]; [exact Hd|].
      rewrite (extractCredsCSV_table _ _ _ Hf Hl Hd) in He.
      destruct (_ || _); [|discriminate]. congruence.
    + rewrite (extractCredsCSV_unopened _ Hf) in He. congruence.
Qed.

Lemma getKMSFromCredentialPath_eq (uriPrefix path region : string)
      (w : World) :
  getRegion uriPrefix = inr region -> path <> "" ->
  getKMSFromCredentialPath E uriPrefix path w =
  match extractCredsCSV E path with
  | inr (ak, sk) =>
      sessionThenKMS E
        {| cfgCredentials := Some (NewStaticCredentialsFromCreds ak sk);
           cfgRegion := region |} w
  | inl errBadFile => (inl errBadFile, w)
  | inl errCredCSV => (inl errCredCSV, w)
  | inl _ => sessionThenKMS E (sharedConfig path region) w
  end.
Proof.
  intros Hr Hp. unfold getKMSFromCredentialPath, sessionThenKMS, bind, liftE.
  rewrite Hr. destruct path as [|ch path]; [tauto|]. cbn [String.length Nat.eqb].
  destruct (extractCredsCSV E (String ch path)) as [[]|[ak sk]]; reflexivity.
Qed.

Lemma sessionThenKMS_sessions (cfg : awsConfig) (w : World) :
  sessions (snd (sessionThenKMS E cfg w)) = (sessions w ++ [cfg])%list.
Proof.
  unfold sessionThenKMS, bind, NewSession, new_kms.
  now destruct (session_NewSession E cfg).
Qed.

End CredentialFacts.

(** * The claims *)

(** C3: a client built for the prefix [p] supports the key URI [s] exactly
    when [s] begins with the bytes of [p], whatever else [s] holds.
    [Supported] is a function of the client and the URI alone: it takes
    no environment and no world, so it reads and writes nothing. *)
Theorem C3_Supported_is_literal_prefix
        (E : Env) (p : string) (opts : list ClientOption) (w w' : World)
        (c : awsClient) (s : string) :
  NewClientWithOptions E p opts w = (inr c, w') ->
  (Supported c s = true <-> exists t, s = p ++ t).
Proof.
  intros H. apply NewClientWithOptions_ok in H.
  destruct H as (_ & a' & Hf & ->).
  apply forOpts_keyURIPrefix in Hf.
  unfold Supported. rewrite finish_keyURIPrefix, Hf.
  apply HasPrefix_true.
Qed.

Lemma C3_witness :
  Supported (finish (emptyClient examplePrefix)) exampleKeyURI = true
  <-> exists t, exampleKeyURI = examplePrefix ++ t.
Proof.
  apply (C3_Supported_is_literal_prefix exampleEnv examplePrefix [] w0 w0).
  reflexivity.
Defined.

(** C5: [getRegion] succeeds exactly on the strings in which the pattern
    [aws-kms://arn:<partition>:kms:<region>:] occurs; it then returns the
    region of the leftmost occurrence; otherwise it fails with its one
    error.  The key URI of the tests gives [us-east-2], and a URI without
    the [arn:] segment fails. *)
Theorem C5_getRegion_follows_the_grammar :
  (forall u,
      ((exists r, getRegion u = inr r) <->
       (exists pre part region post, occursIn u pre part region post))
      /\ (forall r, getRegion u = inr r ->
            exists pre part post,
              occursIn u pre part r post
              /\ forall pre' part' r' post',
                   occursIn u pre' part' r' post' ->
                   String.length pre <= String.length pre')
      /\ (forall e, getRegion u = inl e ->
            e = errorsNew "extracting region from URI failed"))
  /\ getRegion
       "aws-kms://arn:aws:kms:us-east-2:235739564943:key/3ee50705-5a82-4f5b-9753-05c4f473922f"
     = inr "us-east-2"
  /\ getRegion
       "aws-kms://aws:kms:us-east-2:235739564943:key/3ee50705-5a82-4f5b-9753-05c4f473922f"
     = inl (errorsNew "extracting region from URI failed").
Proof.
  split; [|split; reflexivity].
  intros u. split; [split|split].
  - intros [r Hr]. apply getRegion_sound in Hr.
    destruct Hr as (pre & part & post & H). eauto.
  - intros (pre & part & region & post & H).
    eapply getRegion_complete; eauto.
  - apply getRegion_leftmost.
  - apply getRegion_error.
Qed.

(** C6, as amended: an unopenable file gives [errBadFile]; a parse whose
    first record has exactly one field gives the signal that the file is
    not a CSV credential file, however many records there are; any other
    parse with fewer than two records, or with fewer than four fields in
    the second, gives [errCredCSV]; a parse with two records or more, more
    than one field in the first and four or more in the second gives the
    fields 2 and 3 of the second record. *)
Theorem C6_extractCredsCSV_cases (E : Env) (file : string) :
  (os_Open E file = None -> extractCredsCSV E file = inl errBadFile)
  /\ (forall f lines,
        os_Open E file = Some f -> csv_ReadAll E f = inr lines ->
        (lines <> [] -> List.length (nth 0 lines []) = 1 ->
         extractCredsCSV E file
         = inl (errorsNew "not a valid CSV credential file"))
        /\ (~ (lines <> [] /\ List.length (nth 0 lines []) = 1) ->
            List.length lines < 2 \/ List.length (nth 1 lines []) < 4 ->
            extractCredsCSV E file = inl errCredCSV)
        /\ (2 <= List.length lines ->
            1 < List.length (nth 0 lines []) ->
            4 <= List.length (nth 1 lines []) ->
            extractCredsCSV E file
            = inr (nth 2 (nth 1 lines []) "", nth 3 (nth 1 lines []) ""))).
Proof.
  split; [apply extractCredsCSV_unopened|].
  intros f lines Hf Hl. split; [|split].
  - apply (extractCredsCSV_one_column E file f lines Hf Hl).
  - intros Hn Hshort. rewrite (extractCredsCSV_table E file f lines Hf Hl Hn).
    destruct Hshort as [H|H].
    + apply Nat.ltb_lt in H. now rewrite H.
    + apply Nat.ltb_lt in H. rewrite H. now rewrite orb_true_r.
  - intros H2 H1 H4.
    rewrite (extractCredsCSV_table E file f lines Hf Hl) by lia.
    apply Nat.ltb_ge in H2. apply Nat.ltb_ge in H4. now rewrite H2, H4.
Qed.

Lemma C6_witness :
  extractCredsCSV exampleEnv "credentials.csv"
  = inr ("AKIAEXAMPLE", "SECRETEXAMPLE").
Proof.
  refine (proj2 (proj2 (proj2 (C6_extractCredsCSV_cases exampleEnv
            "credentials.csv") "csv" _ eq_refl eq_refl)) _ _ _);
    simpl; lia.
Defined.

(** C6, the claim as it stands fails: an INI file parses as records of
    one field, so its second record has fewer than four fields, and the
    answer is the signal for the fallback, not [errCredCSV]. *)
Lemma C6_counterexample :
  exists lines,
    os_Open exampleEnv "credentials.cred" = Some "ini"
    /\ csv_ReadAll exampleEnv "ini" = inr lines
    /\ List.length (nth 1 lines []) < 4
    /\ extractCredsCSV exampleEnv "credentials.cred" <> inl errCredCSV.
Proof.
  eexists. split; [reflexivity|]. split; [reflexivity|].
  split; [simpl; lia | discriminate].
Qed.

(** C1, as amended: with a prefix whose region parses and a path that is
    not empty, [getKMSFromCredentialPath] goes on to the INI parser (the
    shared-credentials provider on section [default] is what it hands to
    [session.NewSession]) exactly when the file opens and either the CSV
    reader fails or the first record has one field.  The errors "cannot
    open" and "malformed" are returned as they are, with no session
    attempted. *)
Theorem C1_fallback_to_INI
        (E : Env) (uriPrefix path region : string) (w : World) :
  getRegion uriPrefix = inr region -> path <> "" ->
  (fallsBack E path <->
   sessions (snd (getKMSFromCredentialPath E uriPrefix path w))
   = (sessions w ++ [sharedConfig path region])%list)
  /\ (fallsBack E path ->
      getKMSFromCredentialPath E uriPrefix path w
      = sessionThenKMS E (sharedConfig path region) w)
  /\ (extractCredsCSV E path = inl errBadFile ->
      getKMSFromCredentialPath E uriPrefix path w = (inl errBadFile, w))
  /\ (extractCredsCSV E path = inl errCredCSV ->
      getKMSFromCredentialPath E uriPrefix path w = (inl errCredCSV, w)).
Proof.
  intros Hr Hp.
  rewrite (getKMSFromCredentialPath_eq E uriPrefix path region w Hr Hp).
  assert (Hfb : fallsBack E path ->
                match extractCredsCSV E path with
                | inr (ak, sk) =>
                    sessionThenKMS E
                      {| cfgCredentials :=
                           Some (NewStaticCredentialsFromCreds ak sk);
                         cfgRegion := region |} w
                | inl errBadFile => (inl errBadFile, w)
                | inl errCredCSV => (inl errCredCSV, w)
                | inl _ => sessionThenKMS E (sharedConfig path region) w
                end = sessionThenKMS E (sharedConfig path region) w).
  { intros Hf. apply extractCredsCSV_fallsBack in Hf.
    destruct Hf as (e & -> & Hb & Hc). destruct e; congruence. }
  split; [split|split; [exact Hfb|split]].
  - intros Hf. rewrite (Hfb Hf). apply sessionThenKMS_sessions.
  - intros Hs. apply extractCredsCSV_fallsBack.
    destruct (extractCredsCSV E path) as [e|[ak sk]].
    + exists e. split; [reflexivity|].
      split; intros ->; cbn [snd] in Hs;
        apply (f_equal (@List.length awsConfig)) in Hs;
        rewrite length_app in Hs; simpl in Hs; lia.
    + rewrite sessionThenKMS_sessions in Hs.
      apply app_inv_head in Hs. discriminate.
  - now intros ->.
  - now intros ->.
Qed.

Lemma C1_witness :
  getKMSFromCredentialPath exampleEnv examplePrefix "credentials.cred" w0
  = sessionThenKMS exampleEnv (sharedConfig "credentials.cred" "us-east-2") w0.
Proof.
  refine (proj1 (proj2 (C1_fallback_to_INI exampleEnv examplePrefix
            "credentials.cred" "us-east-2" w0 eq_refl _)) _).
  - discriminate.
  - exists "ini". split; [reflexivity|]. right. eexists.
    split; [reflexivity|]. split; [discriminate | reflexivity].
Defined.

(** C1, the claim as it stands fails twice: on a malformed CSV file the
    error is returned and no session is attempted, and on a file the CSV
    reader rejects the INI parser is tried. *)
Lemma C1_counterexample :
  (extractCredsCSV exampleEnv "access_keys_bad.csv" = inl errCredCSV
   /\ getKMSFromCredentialPath exampleEnv examplePrefix
        "access_keys_bad.csv" w0 = (inl errCredCSV, w0))
  /\ (extractCredsCSV exampleEnv "quote.csv"
      = inl (libError "encoding/csv"
                      "record on line 2: wrong number of fields")
      /\ getKMSFromCredentialPath exampleEnv examplePrefix "quote.csv" w0
         = (inr (kms_New 0 (sharedConfig "quote.csv" "us-east-2")),
            {| constructed := 1;
               sessions := [sharedConfig "quote.csv" "us-east-2"] |})).
Proof. repeat split. Qed.

Section OptionSequences.

Variable E : Env.

Lemma has_kms_kept (o : ClientOption) (s s' : awsClient * World)
      (r : error + unit) :
  isSome (kms (fst s)) = true -> set E o s = (r, s') ->
  isSome (kms (fst s')) = true.
Proof.
  destruct s as [a w], s' as [a' w']. cbn [fst].
  destruct (kms a) as [k|] eqn:Hk; [|discriminate]. intros _ H.
  now rewrite (set_kms_kept E o a a' w w' r k H Hk).
Qed.

Lemma has_name_kept (o : ClientOption) (s s' : awsClient * World)
      (r : error + unit) :
  encryptionContextName (fst s) <> 0 -> set E o s = (r, s') ->
  encryptionContextName (fst s') <> 0.
Proof.
  destruct s as [a w], s' as [a' w']. cbn [fst]. intros Hn H.
  now rewrite (set_name_kept E o a a' w w' r H Hn).
Qed.

(** Two options that supply a handle: the loop over the options fails. *)
Lemma two_suppliers_fail (o1 o2 : ClientOption)
      (l1 l2 l3 : list ClientOption) (s : awsClient * World) :
  suppliesHandle o1 = true -> suppliesHandle o2 = true ->
  isError (fst (forOpts (set E) failedSetting
                        (l1 ++ o1 :: l2 ++ o2 :: l3) s)) = true.
Proof.
  intros H1 H2.
  apply (forOpts_twice (fun s => isSome (kms (fst s)) = true)).
  - intros o s1 r s2. apply has_kms_kept.
  - intros [a w] [a' w'] H.
    now apply (set_supplier E o1 a a' w w' (inr tt) H H1).
  - intros [a w] Hs.
    destruct (set E o2 (a, w)) as [r [a' w']] eqn:H.
    now apply (set_supplier E o2 a a' w w' r H H2).
Qed.

Lemma two_names_fail (n1 n2 : EncryptionContextName)
      (l1 l2 l3 : list ClientOption) (s : awsClient * World) :
  isError (fst (forOpts (set E) failedSetting
                        (l1 ++ WithEncryptionContextName n1
                            :: l2 ++ WithEncryptionContextName n2 :: l3) s))
  = true.
Proof.
  apply (forOpts_twice (fun s => encryptionContextName (fst s) <> 0)).
  - intros o s1 r s2. apply has_name_kept.
  - intros [a w] [a' w'] H.
    now apply (set_name_option E n1 a a' w w' (inr tt) H).
  - intros [a w] Hs.
    destruct (set E (WithEncryptionContextName n2) (a, w))
      as [r [a' w']] eqn:H.
    now apply (set_name_option E n2 a a' w w' r H).
Qed.

Lemma forOpts_name_untouched (opts : list ClientOption) (a a' : awsClient)
      (w w' : World) (r : error + unit) :
  forallb (fun o => negb (isContextNameOption o)) opts = true ->
  forOpts (set E) failedSetting opts (a, w) = (r, (a', w')) ->
  encryptionContextName a' = encryptionContextName a.
Proof.
  revert a w; induction opts as [|o opts IH]; intros a w Hall; simpl.
  - now intros [= _ <- _].
  - simpl in Hall. apply andb_true_iff in Hall. destruct Hall as [Ho Hall].
    apply negb_true_iff in Ho.
    destruct (set E o (a, w)) as [[e|[]] [a1 w1]] eqn:H1.
    + intros [= _ <- _]. eapply set_name_other; eauto.
    + intros H. rewrite (IH a1 w1 Hall H). eapply set_name_other; eauto.
Qed.

Lemma finish_set_builder (b : Builder) (a : awsClient) :
  finish (set_builder b a) = set_builder b (finish a).
Proof. unfold finish. cbn. now destruct (Nat.eqb _ 0). Qed.

(** One more option after options that succeed. *)
Lemma NewClientWithOptions_snoc (p : string) (opts : list ClientOption)
      (o : ClientOption) (w w' : World) (c : awsClient) :
  NewClientWithOptions E p opts w = (inr c, w') ->
  exists a, c = finish a /\
    NewClientWithOptions E p (opts ++ [o]) w =
    match set E o (a, w') with
    | (inl err, (_, w'')) => (inl (failedSetting err), w'')
    | (inr _, (a', w'')) => (inr (finish a'), w'')
    end.
Proof.
  intros H. apply NewClientWithOptions_ok in H.
  destruct H as (Hacc & a & Hf & ->). exists a. split; [reflexivity|].
  rewrite NewClientWithOptions_eq, Hacc, forOpts_app, Hf. simpl.
  now destruct (set E o (a, w')) as [[e|[]] [a' w'']].
Qed.

End OptionSequences.

(** C2, as amended: selecting a strategy again does not fail.  After any
    options that succeed, [UseV2] or [WithV2KMSOptions] (with options of
    its own that agree) succeeds and puts a new builder of the newer
    strategy in the place of the one selected before.  What fails at
    build time is a legacy handle given both by [WithKMS] and by
    [WithCredentialPath], in either order. *)
Theorem C2_strategy_is_replaced (E : Env) (p : string) (w : World) :
  (forall opts c w',
      NewClientWithOptions E p opts w = (inr c, w') ->
      NewClientWithOptions E p (opts ++ [UseV2]) w
      = (inr (set_builder (builderV2 zero_v2Client) c), w'))
  /\ (forall opts vs v c w',
         NewClientWithOptions E p opts w = (inr c, w') ->
         forOpts set_v2 failedSetting vs zero_v2Client = (inr tt, v) ->
         NewClientWithOptions E p (opts ++ [WithV2KMSOptions vs]) w
         = (inr (set_builder (builderV2 v) c), w'))
  /\ (forall l1 k l2 path l3,
         isError (fst (NewClientWithOptions E p
                         (l1 ++ WithKMS (Some k)
                             :: l2 ++ WithCredentialPath path :: l3) w))
         = true)
  /\ (forall l1 k l2 path l3,
         isError (fst (NewClientWithOptions E p
                         (l1 ++ WithCredentialPath path
                             :: l2 ++ WithKMS (Some k) :: l3) w))
         = true).
Proof.
  repeat split.
  - intros opts c w' H.
    destruct (NewClientWithOptions_snoc E p opts UseV2 w w' c H)
      as (a & -> & ->).
    cbn. now rewrite finish_set_builder.
  - intros opts vs v c w' H Hv.
    destruct (NewClientWithOptions_snoc E p opts (WithV2KMSOptions vs)
                                        w w' c H) as (a & -> & ->).
    unfold set, bind, onObject, get, put, liftE. cbn [fst snd].
    rewrite Hv. cbn. now rewrite finish_set_builder.
  - intros. apply NewClientWithOptions_error.
    now apply two_suppliers_fail.
  - intros. apply NewClientWithOptions_error.
    now apply two_suppliers_fail.
Qed.

Lemma C2_witness :
  NewClientWithOptions exampleEnv examplePrefix
    ([WithV2KMSOptions [WithAPITimeout 7]] ++ [UseV2]) w0
  = (inr (set_builder (builderV2 zero_v2Client)
            (finish (set_builder
                       (builderV2 (set_timeout 7 zero_v2Client))
                       (emptyClient examplePrefix)))), w0).
Proof.
  apply (proj1 (C2_strategy_is_replaced exampleEnv examplePrefix w0)).
  reflexivity.
Defined.

(** C2, the claim as it stands fails: a strategy selected twice, or a
    newer strategy selected after a legacy handle was given, builds a
    client without error. *)
Lemma C2_counterexample :
  isError (fst (NewClientWithOptions exampleEnv examplePrefix
                  [UseV2; UseV2] w0)) = false
  /\ isError (fst (NewClientWithOptions exampleEnv examplePrefix
                     [UseV2; WithV2KMSOptions [WithV2KMS (Some (callerV2KMS 1))]]
                     w0)) = false
  /\ isError (fst (NewClientWithOptions exampleEnv examplePrefix
                     [WithV2KMSOptions [WithV2KMS (Some (callerV2KMS 1))]; UseV2]
                     w0)) = false.
Proof. repeat split. Qed.

(** C7: options that supply the legacy handle twice, in any combination
    of [WithKMS] (with a handle) and [WithCredentialPath] and with any
    options around them, make [NewClientWithOptions] fail, and so do two
    [WithEncryptionContextName]; no option overwrites a handle or a
    context name that is set; with [WithKMS] as the only source the
    construction succeeds and the client holds that handle, and with
    [WithCredentialPath] as the only source it succeeds whenever the
    handle can be made from the file. *)
Theorem C7_handle_and_name_are_set_once (E : Env) (p : string) (w : World) :
  (forall l1 o1 l2 o2 l3,
      suppliesHandle o1 = true -> suppliesHandle o2 = true ->
      isError (fst (NewClientWithOptions E p
                      (l1 ++ o1 :: l2 ++ o2 :: l3) w)) = true)
  /\ (forall l1 n1 l2 n2 l3,
         isError (fst (NewClientWithOptions E p
                         (l1 ++ WithEncryptionContextName n1
                             :: l2 ++ WithEncryptionContextName n2 :: l3) w))
         = true)
  /\ (forall o a a' w1 w2 r,
         set E o (a, w1) = (r, (a', w2)) ->
         (forall k, kms a = Some k -> kms a' = Some k)
         /\ (encryptionContextName a <> 0 ->
             encryptionContextName a' = encryptionContextName a))
  /\ (forall k,
         accepted E p = true ->
         exists c, NewClientWithOptions E p [WithKMS (Some k)] w = (inr c, w)
                   /\ kms c = Some k)
  /\ (forall path k w',
         accepted E p = true ->
         getKMSFromCredentialPath E p path w = (inr k, w') ->
         exists c, NewClientWithOptions E p [WithCredentialPath path] w
                   = (inr c, w')
                   /\ kms c = Some k).
Proof.
  repeat split.
  - intros. apply NewClientWithOptions_error. now apply two_suppliers_fail.
  - intros. apply NewClientWithOptions_error. apply two_names_fail.
  - intros k Hk. eapply set_kms_kept; eauto.
  - intros Hn. eapply set_name_kept; eauto.
  - intros k Hacc. rewrite NewClientWithOptions_eq, Hacc. cbn.
    eexists. split; reflexivity.
  - intros path k w' Hacc Hg. rewrite NewClientWithOptions_eq, Hacc.
    cbn [forOpts]. unfold set, bind, onObject, inWorld, get, put.
    cbn [fst snd emptyClient kms isSome keyURIPrefix]. rewrite Hg.
    cbn. eexists. split; reflexivity.
Qed.

Lemma C7_witness :
  isError (fst (NewClientWithOptions exampleEnv examplePrefix
                  ([UseV2] ++ WithCredentialPath "credentials.csv"
                      :: [WithEncryptionContextName LegacyAdditionalData]
                      ++ WithKMS (Some (callerKMS 1)) :: []) w0)) = true.
Proof.
  apply (proj1 (C7_handle_and_name_are_set_once exampleEnv examplePrefix w0));
    reflexivity.
Defined.

(** C8: when [NewClientWithOptions] returns a client and no option of the
    sequence is [WithEncryptionContextName], the context name of the
    client is [AssociatedData], whose text is "associatedData"; the valid
    names are [AssociatedData] and [LegacyAdditionalData], whose texts
    are "associatedData" and "additionalData". *)
Theorem C8_default_context_name
        (E : Env) (p : string) (opts : list ClientOption) (w w' : World)
        (c : awsClient) :
  NewClientWithOptions E p opts w = (inr c, w') ->
  forallb (fun o => negb (isContextNameOption o)) opts = true ->
  encryptionContextName c = AssociatedData
  /\ EncryptionContextName_String (encryptionContextName c) = "associatedData"
  /\ (forall n, valid n = true <-> n = AssociatedData \/ n = LegacyAdditionalData)
  /\ EncryptionContextName_String LegacyAdditionalData = "additionalData".
Proof.
  intros H Hall. apply NewClientWithOptions_ok in H.
  destruct H as (_ & a' & Hf & ->).
  apply (forOpts_name_untouched E opts _ _ _ _ _ Hall) in Hf.
  assert (Hc : encryptionContextName (finish a') = AssociatedData).
  { unfold finish. rewrite Hf. reflexivity. }
  rewrite Hc. repeat split; try reflexivity; apply valid_names.
Qed.

Lemma C8_witness :
  encryptionContextName
    (finish (set_kms (Some (callerKMS 1))
               (set_builder (builderV2 zero_v2Client)
                            (emptyClient examplePrefix))))
  = AssociatedData.
Proof.
  refine (proj1 (C8_default_context_name exampleEnv examplePrefix
                   [UseV2; WithKMS (Some (callerKMS 1))] w0 w0 _ _ _));
    reflexivity.
Defined.

(** C9: take a client whose active strategy holds no handle and call
    [GetAEAD] on it any number of times.  Either every call fails, nothing
    is constructed and the client still holds no handle; or exactly one
    handle is constructed, the client holds it at the end, and every
    adapter returned holds that same handle.  This is so for the legacy
    and for the newer strategy alike. *)
Theorem C9_one_handle_memoized
        (E : Env) (keyURIs : list string) (c c' : awsClient) (w w' : World)
        (rs : list (error + AEAD)) :
  activeHandle c = None ->
  GetAEADs E keyURIs (c, w) = (rs, (c', w')) ->
  (Forall (fun r => isError r = true) rs
   /\ constructed w' = constructed w /\ activeHandle c' = None)
  \/ (exists h, constructed w' = S (constructed w)
                /\ activeHandle c' = Some h /\ allHold h rs).
Proof.
  revert c w rs; induction keyURIs as [|u us IH]; intros c w rs Hh; simpl.
  - intros [= <- <- <-]. left. repeat split; [constructor | assumption].
  - destruct (GetAEAD E u (c, w)) as [r [c1 w1]] eqn:H1.
    destruct (GetAEADs E us (c1, w1)) as [rs1 [c2 w2]] eqn:H2.
    intros [= <- <- <-].
    apply (GetAEAD_constructs E _ _ _ _ _ _ Hh) in H1.
    destruct H1 as [(Hr & Hw & Hn)|(aead & -> & Hw & Hn)].
    + apply (IH _ _ _ Hn) in H2.
      destruct H2 as [(Hrs & Hw2 & Hn2)|(h & Hw2 & Hh2 & Hrs)].
      * left. repeat split; [now constructor | congruence | assumption].
      * right. exists h. repeat split; [congruence | assumption |].
        constructor; [|exact Hrs].
        intros aead ->. discriminate.
    + apply (GetAEADs_reuse E _ _ _ _ _ _ _ Hn) in H2.
      destruct H2 as (-> & Hh2 & Hrs).
      right. exists (aeadHandle aead). repeat split; try assumption.
      constructor; [|exact Hrs]. now intros ? [= <-].
Qed.

Lemma C9_witness :
  exists h, constructed
              (snd (snd (GetAEADs exampleEnv
                           ["bad-prefix://x"; exampleKeyURI; exampleKeyURI]
                           (finish (emptyClient examplePrefix), w0))))
            = 1
            /\ allHold h
                 (fst (GetAEADs exampleEnv
                         ["bad-prefix://x"; exampleKeyURI; exampleKeyURI]
                         (finish (emptyClient examplePrefix), w0))).
Proof.
  destruct (C9_one_handle_memoized exampleEnv
              ["bad-prefix://x"; exampleKeyURI; exampleKeyURI]
              (finish (emptyClient examplePrefix)) _ w0 _ _
              eq_refl eq_refl) as [(_ & Hw & _)|(h & Hw & _ & Hrs)].
  - discriminate Hw.
  - exists h. split; [reflexivity | exact Hrs].
Defined.

(** C4: a key URI the client does not support is refused with an error
    that carries the prefix and the URI, and the client is left as it
    was; a supported one goes, after [strings.TrimPrefix] with the
    lowercase scheme, to the builder together with the context name, one
    call and no second attempt.  The scheme is not removed when the
    prefix of the client spells it in capitals: the adapter is then made
    for the whole URI, scheme included. *)
Theorem C4_GetAEAD_keeps_a_capital_scheme (E : Env) :
  (forall c w s,
      Supported c s = false ->
      GetAEAD E s (c, w)
      = (inl (Errorf "keyURI must start with prefix %s, but got %s"
                     [ArgString (keyURIPrefix c); ArgString s]), (c, w)))
  /\ (forall c w s,
         Supported c s = true ->
         GetAEAD E s (c, w)
         = match callBuilder E (strings.TrimPrefix s awsPrefix)
                             (encryptionContextName c) (c, w) with
           | (inl err, st') =>
               (inl (Errorf "building AEAD: %w" [ArgError err]), st')
           | (inr aead, st') => (inr aead, st')
           end)
  /\ (exists c,
         NewClientWithOptions E capitalPrefix [WithKMS (Some (callerKMS 0))] w0
         = (inr c, w0)
         /\ Supported c capitalKeyURI = true
         /\ GetAEAD E capitalKeyURI (c, w0)
            = (inr (newAWSAEAD capitalKeyURI (callerKMS 0) AssociatedData),
               (c, w0))).
Proof.
  split; [|split].
  - intros c w s. apply GetAEAD_unsupported.
  - intros c w s. apply GetAEAD_supported.
  - eexists. split; [reflexivity|]. split; reflexivity.
Qed.

(** ** Letter case of the scheme *)

Section CaseFacts.

Lemma lowerByte_ascii (c : ascii) :
  strings.isASCIIByte (strings.lowerByte c) = strings.isASCIIByte c.
Proof. destruct c as [[] [] [] [] [] [] [] []]; reflexivity. Qed.

Lemma isASCII_lowered (s : string) :
  strings.isASCII (strings.mapBytes strings.lowerByte s) = strings.isASCII s.
Proof.
  induction s as [|c s IH]; simpl; [reflexivity|].
  now rewrite lowerByte_ascii, IH.
Qed.

Lemma isASCII_append (a b : string) :
  strings.isASCII (a ++ b) = strings.isASCII a && strings.isASCII b.
Proof.
  induction a as [|c a IH]; simpl; [reflexivity|].
  now rewrite IH, andb_assoc.
Qed.

Lemma mapBytes_append (f : ascii -> ascii) (a b : string) :
  strings.mapBytes f (a ++ b) = strings.mapBytes f a ++ strings.mapBytes f b.
Proof. induction a as [|c a IH]; simpl; [reflexivity | now rewrite IH]. Qed.

Lemma mapBytes_length (f : ascii -> ascii) (a : string) :
  String.length (strings.mapBytes f a) = String.length a.
Proof. induction a as [|c a IH]; simpl; [reflexivity | now rewrite IH]. Qed.

(** A string that begins with another spelling of the scheme does not
    begin with the scheme. *)
Lemma other_case_no_prefix (scheme t : string) :
  strings.mapBytes strings.lowerByte scheme = awsPrefix ->
  scheme <> awsPrefix ->
  strings.HasPrefix (scheme ++ t) awsPrefix = false.
Proof.
  intros Hl Hne. unfold strings.HasPrefix.
  assert (Hlen : String.length awsPrefix = String.length scheme).
  { now rewrite <- Hl, mapBytes_length. }
  rewrite Hlen, substring_prefix.
  apply String.eqb_neq in Hne. rewrite Hne. apply andb_false_r.
Qed.

Lemma no_scheme_no_region (p : string) :
  (forall pre post, p <> pre ++ awsPrefix ++ post) ->
  getRegion p = inl (errorsNew "extracting region from URI failed").
Proof.
  intros Hno. destruct (getRegion p) as [e|r] eqn:Hr.
  - now rewrite (getRegion_error p e Hr).
  - exfalso. apply getRegion_sound in Hr.
    destruct Hr as (pre & part & post & Hu & _).
    apply (Hno pre ("arn:" ++ ("aws" ++ part) ++ ":kms:" ++ r ++ ":" ++ post)).
    exact Hu.
Qed.

End CaseFacts.

(** C10, as amended: the scheme of the prefix may be spelled in any letter
    case (the check lowers the prefix first), while [GetAEAD] removes only
    the lowercase scheme; so a client whose prefix spells the scheme
    otherwise hands every key URI it supports to the builder with the
    scheme still on it.  The legacy region parser then fails when the
    lowercase scheme occurs nowhere in the prefix; the pattern is not
    anchored, and a prefix that goes on with the lowercase scheme parses. *)
Theorem C10_scheme_case (E : Env) :
  (forall scheme rest,
      strings.mapBytes strings.lowerByte scheme = awsPrefix ->
      strings.isASCII rest = true ->
      accepted E (scheme ++ rest) = true)
  /\ (forall scheme rest c w s,
         strings.mapBytes strings.lowerByte scheme = awsPrefix ->
         scheme <> awsPrefix ->
         keyURIPrefix c = scheme ++ rest ->
         Supported c s = true ->
         strings.TrimPrefix s awsPrefix = s
         /\ GetAEAD E s (c, w)
            = match callBuilder E s (encryptionContextName c) (c, w) with
              | (inl err, st') =>
                  (inl (Errorf "building AEAD: %w" [ArgError err]), st')
              | (inr aead, st') => (inr aead, st')
              end
         /\ ((forall pre post, scheme ++ rest <> pre ++ awsPrefix ++ post) ->
             builder c = builderV1 (scheme ++ rest) -> kms c = None ->
             GetAEAD E s (c, w)
             = (inl (Errorf "building AEAD: %w"
                       [ArgError
                          (errorsNew "extracting region from URI failed")]),
                (c, w)))).
Proof.
  split.
  - intros scheme rest Hl Hrest. unfold accepted, strings.ToLower.
    assert (Ha : strings.isASCII (scheme ++ rest) = true).
    { rewrite isASCII_append, Hrest, <- isASCII_lowered, Hl. reflexivity. }
    rewrite Ha, mapBytes_append, Hl. apply HasPrefix_append.
  - intros scheme rest c w s Hl Hne Hp Hs.
    assert (Ht : strings.TrimPrefix s awsPrefix = s).
    { apply TrimPrefix_none. unfold Supported in Hs.
      apply HasPrefix_true in Hs. destruct Hs as [t ->].
      rewrite Hp, append_assoc. now apply other_case_no_prefix. }
    assert (Hg : GetAEAD E s (c, w)
                 = match callBuilder E s (encryptionContextName c) (c, w) with
                   | (inl err, st') =>
                       (inl (Errorf "building AEAD: %w" [ArgError err]), st')
                   | (inr aead, st') => (inr aead, st')
                   end).
    { rewrite (GetAEAD_supported E c w s Hs), Ht. reflexivity. }
    split; [exact Ht|]. split; [exact Hg|].
    intros Hno Hb Hk. rewrite Hg.
    unfold callBuilder, buildV1, getKMS, bind, onObject, inWorld, get, liftE.
    cbv beta iota delta [fst snd]. rewrite Hb, Hk.
    now rewrite (no_scheme_no_region _ Hno).
Qed.

Lemma C10_witness :
  strings.TrimPrefix capitalKeyURI awsPrefix = capitalKeyURI
  /\ GetAEAD exampleEnv capitalKeyURI (finish (emptyClient capitalPrefix), w0)
     = match callBuilder exampleEnv capitalKeyURI AssociatedData
                         (finish (emptyClient capitalPrefix), w0) with
       | (inl err, st') =>
           (inl (Errorf "building AEAD: %w" [ArgError err]), st')
       | (inr aead, st') => (inr aead, st')
       end.
Proof.
  destruct (proj2 (C10_scheme_case exampleEnv) "AWS-KMS://"
                  "arn:aws:kms:us-east-2:"
                  (finish (emptyClient capitalPrefix)) w0 capitalKeyURI
                  eq_refl) as (Ht & Hg & _).
  - discriminate.
  - reflexivity.
  - reflexivity.
  - split; [exact Ht | exact Hg].
Defined.

(** C10, the claim as it stands fails: this prefix spells the scheme in
    capitals and is accepted, yet the region parser finds a region in it
    and the legacy client resolves a key under it. *)
Lemma C10_counterexample :
  NewClientWithOptions exampleEnv doubledPrefix [] w0
  = (inr (finish (emptyClient doubledPrefix)), w0)
  /\ strings.HasPrefix doubledPrefix awsPrefix = false
  /\ Supported (finish (emptyClient doubledPrefix)) doubledKeyURI = true
  /\ getRegion doubledPrefix = inr "us-east-2"
  /\ fst (GetAEAD exampleEnv doubledKeyURI
            (finish (emptyClient doubledPrefix), w0))
     = inr (newAWSAEAD doubledKeyURI
              (kms_New 0 {| cfgCredentials := None;
                            cfgRegion := "us-east-2" |})
              AssociatedData).
Proof. repeat split. Qed.

(** * Further properties of the package *)

(** ** The region of a documented URI *)

Lemma cut_at_colon (cls : ascii -> bool) (xs ys a b : string) :
  cls ":"%char = false ->
  allBytes cls xs = true -> allBytes cls ys = true ->
  xs ++ String ":" a = ys ++ String ":" b -> xs = ys /\ a = b.
Proof.
  intros Hc. revert ys; induction xs as [|x xs IH]; intros [|y ys] Hx Hy H;
    simpl in *.
  - injection H as ->. auto.
  - injection H as <- _. rewrite Hc in Hy. discriminate.
  - injection H as -> _. rewrite Hc in Hx. discriminate.
  - injection H as -> H.
    apply andb_true_iff in Hx. apply andb_true_iff in Hy.
    destruct (IH ys (proj2 Hx) (proj2 Hy) H) as [-> ->]. auto.
Qed.

(** X1: on a URI of the documented format, with a partition and a region
    made of the bytes the pattern allows and a region that is not empty,
    [getRegion] returns that region, whatever the path is. *)
Theorem X1_getRegion_documented_format (part region path : string) :
  allBytes partitionClass part = true ->
  allBytes regionClass region = true ->
  region <> "" ->
  getRegion (documentedURI part region path) = inr region.
Proof.
  intros Hp Hr Hne.
  assert (Hocc : occursIn (documentedURI part region path)
                          "" part region path).
  { repeat split; assumption. }
  destruct (getRegion_complete _ _ _ _ _ Hocc) as [r Hg].
  rewrite Hg. f_equal.
  destruct (getRegion_leftmost _ _ Hg) as (pre & part' & post' & Ho & Hmin).
  specialize (Hmin _ _ _ _ Hocc). simpl in Hmin.
  destruct pre as [|ch pre]; [|simpl in Hmin; lia].
  destruct Ho as (Hu & Hp' & Hr' & _).
  unfold documentedURI in Hu. simpl in Hu.
  injection Hu as Hu.
  apply (cut_at_colon partitionClass) in Hu; try assumption; try reflexivity.
  destruct Hu as [_ Hu]. injection Hu as Hu.
  apply (cut_at_colon regionClass) in Hu; try assumption; try reflexivity.
  now destruct Hu as [<- _].
Qed.

Lemma X1_witness :
  getRegion (documentedURI "-us-gov" "us-gov-east-1" "235739564943:key/3ee5")
  = inr "us-gov-east-1".
Proof.
  apply X1_getRegion_documented_format;
    [reflexivity | reflexivity | discriminate].
Defined.

(** ** Handles built from the prefix and from a credential file *)

Section HandleFacts.

Variable E : Env.

Lemma sessionThenKMS_eq (cfg : awsConfig) (w : World) :
  sessionThenKMS E cfg w =
  match session_NewSession E cfg with
  | Some msg => (inl (libError "session" msg), sessionLogged cfg w)
  | None => (inr (kms_New (constructed w) cfg),
             handleBuilt (sessionLogged cfg w))
  end.
Proof.
  unfold sessionThenKMS, bind, NewSession, new_kms, sessionLogged, handleBuilt.
  now destruct (session_NewSession E cfg).
Qed.

Lemma getKMS_eq (uriPrefix : string) (w : World) :
  getKMS E uriPrefix w =
  match getRegion uriPrefix with
  | inl e => (inl e, w)
  | inr region => sessionThenKMS E (defaultConfig region) w
  end.
Proof.
  unfold getKMS, sessionThenKMS, bind, liftE, defaultConfig.
  now destruct (getRegion uriPrefix).
Qed.

(** What [getKMSFromCredentialPath] does to the world: a handle more when
    it succeeds, none when it fails. *)
Lemma getKMSFromCredentialPath_world (uriPrefix path : string) (w w' : World)
      (r : error + KMSAPI) :
  getKMSFromCredentialPath E uriPrefix path w = (r, w') ->
  constructed w' = (if isError r then 0 else 1) + constructed w.
Proof.
  destruct (getRegion uriPrefix) as [e|region] eqn:Hr.
  - unfold getKMSFromCredentialPath, bind, liftE. rewrite Hr.
    now intros [= <- <-].
  - destruct path as [|ch path].
    + unfold getKMSFromCredentialPath, bind, liftE, fail. rewrite Hr.
      now intros [= <- <-].
    + rewrite (getKMSFromCredentialPath_eq E _ _ region w Hr)
        by discriminate.
      destruct (extractCredsCSV E (String ch path)) as [e|[ak sk]];
        [destruct e|]; rewrite ?sessionThenKMS_eq;
        try (destruct (session_NewSession E _));
        now intros [= <- <-].
Qed.

End HandleFacts.

(** X2: a legacy client that holds no handle builds it on demand from its
    prefix alone.  When the region of the prefix parses and the session
    is granted, [GetAEAD] on a supported key returns the legacy adapter
    for the key without the lowercase scheme, on a new handle for that
    region with no credentials of its own; the client keeps the handle.
    When the session is refused, the error comes back wrapped, nothing
    is constructed and the client is as before. *)
Theorem X2_legacy_handle_from_prefix
        (E : Env) (c : awsClient) (w : World) (p region s : string) :
  builder c = builderV1 p -> kms c = None ->
  getRegion p = inr region ->
  Supported c s = true ->
  (session_NewSession E (defaultConfig region) = None ->
   GetAEAD E s (c, w)
   = (inr (newAWSAEAD (strings.TrimPrefix s awsPrefix)
             (kms_New (constructed w) (defaultConfig region))
             (encryptionContextName c)),
      (set_kms (Some (kms_New (constructed w) (defaultConfig region))) c,
       handleBuilt (sessionLogged (defaultConfig region) w))))
  /\ (forall msg,
         session_NewSession E (defaultConfig region) = Some msg ->
         GetAEAD E s (c, w)
         = (inl (Errorf "building AEAD: %w"
                        [ArgError (libError "session" msg)]),
            (c, sessionLogged (defaultConfig region) w))).
Proof.
  intros Hb Hk Hr Hs. rewrite (GetAEAD_supported E c w s Hs).
  unfold callBuilder, buildV1, bind, onObject, inWorld, get, put, ret, fail.
  cbv beta iota delta [fst snd]. rewrite Hb, Hk, getKMS_eq, Hr.
  rewrite sessionThenKMS_eq. split.
  - intros ->. reflexivity.
  - intros msg ->. reflexivity.
Qed.

Lemma X2_witness :
  GetAEAD exampleEnv exampleKeyURI (finish (emptyClient examplePrefix), w0)
  = (inr (newAWSAEAD "arn:aws:kms:us-east-2:235739564943:key/3ee50705"
            (kms_New 0 (defaultConfig "us-east-2")) AssociatedData),
     (set_kms (Some (kms_New 0 (defaultConfig "us-east-2")))
              (finish (emptyClient examplePrefix)),
      handleBuilt (sessionLogged (defaultConfig "us-east-2") w0))).
Proof.
  apply (proj1 (X2_legacy_handle_from_prefix exampleEnv
                  (finish (emptyClient examplePrefix)) w0 examplePrefix
                  "us-east-2" exampleKeyURI eq_refl eq_refl eq_refl eq_refl)).
  reflexivity.
Defined.

(** X3: from a credential file in the CSV format (two records or more,
    more than one field in the first, four or more in the second) and a
    prefix whose region parses, [getKMSFromCredentialPath] asks for one
    session with the static credentials of fields 2 and 3 of the second
    record and the region of the prefix, and, when it is granted, returns
    a new handle on it. *)
Theorem X3_handle_from_csv_credentials
        (E : Env) (p path region f : string) (lines : list (list string))
        (w : World) :
  getRegion p = inr region -> path <> "" ->
  os_Open E path = Some f -> csv_ReadAll E f = inr lines ->
  2 <= List.length lines ->
  1 < List.length (nth 0 lines []) ->
  4 <= List.length (nth 1 lines []) ->
  let cfg := staticConfig (nth 2 (nth 1 lines []) "")
                          (nth 3 (nth 1 lines []) "") region in
  getKMSFromCredentialPath E p path w
  = match session_NewSession E cfg with
    | Some msg => (inl (libError "session" msg), sessionLogged cfg w)
    | None => (inr (kms_New (constructed w) cfg),
               handleBuilt (sessionLogged cfg w))
    end.
Proof.
  intros Hr Hp Hf Hl H2 H1 H4 cfg.
  rewrite (getKMSFromCredentialPath_eq E p path region w Hr Hp).
  rewrite (extractCredsCSV_table E path f lines Hf Hl) by lia.
  apply Nat.ltb_ge in H2. apply Nat.ltb_ge in H4. rewrite H2, H4.
  cbn [orb]. apply sessionThenKMS_eq.
Qed.

Lemma X3_witness :
  getKMSFromCredentialPath exampleEnv examplePrefix "credentials.csv" w0
  = (inr (kms_New 0 (staticConfig "AKIAEXAMPLE" "SECRETEXAMPLE" "us-east-2")),
     handleBuilt
       (sessionLogged
          (staticConfig "AKIAEXAMPLE" "SECRETEXAMPLE" "us-east-2") w0)).
Proof.
  refine (X3_handle_from_csv_credentials exampleEnv examplePrefix
            "credentials.csv" "us-east-2" "csv" _ w0 eq_refl _ eq_refl
            eq_refl _ _ _).
  - discriminate.
  - simpl; lia.
  - simpl; lia.
  - simpl; lia.
Defined.

(** X4: [WithCredentialPath] needs a prefix that carries a region and a
    path that is not empty.  With an accepted prefix in which the pattern
    of [getRegion] does not occur, the construction fails on that option
    whatever the path is; with a prefix whose region parses and the empty
    path, it fails with [errCred].  In both cases no file is opened, no
    session is asked for and the options that follow are not run. *)
Theorem X4_credential_path_needs_region_and_path
        (E : Env) (p : string) (rest : list ClientOption) (w : World) :
  accepted E p = true ->
  (forall e path,
      getRegion p = inl e ->
      NewClientWithOptions E p (WithCredentialPath path :: rest) w
      = (inl (failedSetting e), w))
  /\ (forall region,
         getRegion p = inr region ->
         NewClientWithOptions E p (WithCredentialPath "" :: rest) w
         = (inl (failedSetting errCred), w)).
Proof.
  intros Hacc. split.
  - intros e path Hr. rewrite NewClientWithOptions_eq, Hacc.
    cbn [forOpts]. unfold set, bind, onObject, inWorld, get.
    cbn [fst snd emptyClient kms isSome keyURIPrefix].
    unfold getKMSFromCredentialPath, bind, liftE. rewrite Hr. reflexivity.
  - intros region Hr. rewrite NewClientWithOptions_eq, Hacc.
    cbn [forOpts]. unfold set, bind, onObject, inWorld, get.
    cbn [fst snd emptyClient kms isSome keyURIPrefix].
    unfold getKMSFromCredentialPath, bind, liftE, fail. rewrite Hr.
    reflexivity.
Qed.

Lemma X4_witness :
  NewClientWithOptions exampleEnv "aws-kms://"
    [WithCredentialPath "credentials.csv"; UseV2] w0
  = (inl (failedSetting (errorsNew "extracting region from URI failed")), w0).
Proof.
  apply (proj1 (X4_credential_path_needs_region_and_path exampleEnv
                  "aws-kms://" [UseV2] w0 eq_refl)).
  reflexivity.
Defined.

(** ** The loop over the options *)

Section LoopFacts.

Variable E : Env.

(** What one option does to the world. *)
Lemma set_world (o : ClientOption) (a a' : awsClient) (w w' : World)
      (r : error + unit) :
  set E o (a, w) = (r, (a', w')) ->
  (isCredentialPathOption o = false -> w' = w)
  /\ (isSome (kms a) = true -> w' = w)
  /\ constructed w <= constructed w'
  /\ (constructed w' <> constructed w ->
      constructed w' = S (constructed w) /\ isSome (kms a') = true).
Proof.
  intros H. apply set_cases in H.
  destruct o as [path|k|name| |opts].
  - destruct H as [(Hs & _ & -> & ->)|(Hn & rk & Hg & Hrk)].
    + repeat split; auto. tauto.
    + apply getKMSFromCredentialPath_world in Hg.
      rewrite Hn. destruct rk as [e|k]; destruct Hrk as [-> ->];
        cbn in Hg; repeat split; try discriminate; try lia.
  - destruct H as (-> & _). repeat split; auto. tauto.
  - destruct H as (-> & _). repeat split; auto. tauto.
  - destruct H as (-> & _). repeat split; auto. tauto.
  - destruct H as (-> & _). repeat split; auto. tauto.
Qed.

Lemma forOpts_no_credential_path (opts : list ClientOption) (a a' : awsClient)
      (w w' : World) (r : error + unit) :
  forallb (fun o => negb (isCredentialPathOption o)) opts = true ->
  forOpts (set E) failedSetting opts (a, w) = (r, (a', w')) -> w' = w.
Proof.
  revert a w; induction opts as [|o opts IH]; intros a w Hall; simpl.
  - now intros [= _ _ <-].
  - simpl in Hall. apply andb_true_iff in Hall. destruct Hall as [Ho Hall].
    apply negb_true_iff in Ho.
    destruct (set E o (a, w)) as [[e|[]] [a1 w1]] eqn:H1;
      apply set_world in H1; destruct H1 as (Hw & _).
    + intros [= _ _ <-]. auto.
    + intros H. rewrite (IH a1 w1 Hall H). auto.
Qed.

(** The options construct a handle at most once; when they have, the
    client holds a legacy handle. *)
Lemma forOpts_constructs (opts : list ClientOption) (a a' : awsClient)
      (w w' : World) (r : error + unit) :
  forOpts (set E) failedSetting opts (a, w) = (r, (a', w')) ->
  (isSome (kms a) = true -> w' = w)
  /\ constructed w <= constructed w' <= S (constructed w).
Proof.
  revert a w; induction opts as [|o opts IH]; intros a w; simpl.
  - intros [= _ _ <-]. split; [auto | lia].
  - destruct (set E o (a, w)) as [[e|[]] [a1 w1]] eqn:H1.
    + intros [= _ _ <-]. apply set_world in H1.
      destruct H1 as (_ & Hs & Hle & Hne).
      split; [exact Hs|].
      destruct (Nat.eq_dec (constructed w1) (constructed w)) as [->|Hd];
        [lia|]. destruct (Hne Hd) as [-> _]. lia.
    + intros H. pose proof H1 as H1'. apply set_world in H1.
      destruct H1 as (_ & Hs & Hle & Hne).
      destruct (IH a1 w1 H) as (Hs2 & Hle2).
      split.
      * intros Hk. rewrite (Hs Hk) in *.
        apply Hs2. now apply (has_kms_kept E o (a, w) (a1, w) (inr tt)).
      * destruct (Nat.eq_dec (constructed w1) (constructed w)) as [Hd|Hd];
          [lia|]. destruct (Hne Hd) as [Hc Hk1].
        rewrite (Hs2 Hk1). lia.
Qed.

End LoopFacts.

(** X5: an error of [NewClientWithOptions] has one of two shapes.  The
    prefix was refused: no option has run and the world is untouched.  Or
    an option failed: its error is carried, as text, by a new error
    "failed setting option", so that none of the package's own error
    values ever comes back as it is. *)
Theorem X5_build_errors_are_wrapped
        (E : Env) (p : string) (opts : list ClientOption) (w w' : World)
        (e : error) :
  NewClientWithOptions E p opts w = (inl e, w') ->
  (accepted E p = false /\ w' = w
   /\ e = Errorf "uriPrefix must start with %q, but got %q"
                 [ArgString awsPrefix; ArgString p])
  \/ (accepted E p = true
      /\ exists err, e = Errorf "failed setting option: %v" [ArgError err]).
Proof.
  rewrite NewClientWithOptions_eq.
  destruct (accepted E p).
  - destruct (forOpts (set E) failedSetting opts (emptyClient p, w))
      as [[e0|[]] [a' w1]] eqn:Hf; [|discriminate].
    intros [= <- <-]. right. split; [reflexivity|].
    apply forOpts_wrapped in Hf. exact Hf.
  - intros [= <- <-]. left. auto.
Qed.

Lemma X5_witness :
  (accepted exampleEnv "bad-prefix://arn:aws-cn:kms:cn-north-1:" = false
   /\ w0 = w0
   /\ Errorf "uriPrefix must start with %q, but got %q"
             [ArgString awsPrefix;
              ArgString "bad-prefix://arn:aws-cn:kms:cn-north-1:"]
      = Errorf "uriPrefix must start with %q, but got %q"
               [ArgString awsPrefix;
                ArgString "bad-prefix://arn:aws-cn:kms:cn-north-1:"])
  \/ (accepted exampleEnv "bad-prefix://arn:aws-cn:kms:cn-north-1:" = true
      /\ exists err,
           Errorf "uriPrefix must start with %q, but got %q"
                  [ArgString awsPrefix;
                   ArgString "bad-prefix://arn:aws-cn:kms:cn-north-1:"]
           = Errorf "failed setting option: %v" [ArgError err]).
Proof.
  apply (X5_build_errors_are_wrapped exampleEnv
           "bad-prefix://arn:aws-cn:kms:cn-north-1:"
           [WithCredentialPath "credentials.csv"] w0 w0).
  reflexivity.
Defined.

(** X6: the options run in the order given and the first one that fails
    ends the construction: its error is the one reported, and the options
    after it do not run, so the world is as the failing option left it. *)
Theorem X6_first_failing_option_stops
        (E : Env) (p : string) (l1 l2 : list ClientOption) (o : ClientOption)
        (w w1 w2 : World) (a a' : awsClient) (e : error) :
  accepted E p = true ->
  forOpts (set E) failedSetting l1 (emptyClient p, w) = (inr tt, (a, w1)) ->
  set E o (a, w1) = (inl e, (a', w2)) ->
  NewClientWithOptions E p (l1 ++ o :: l2) w = (inl (failedSetting e), w2).
Proof.
  intros Hacc H1 Ho.
  rewrite NewClientWithOptions_eq, Hacc, forOpts_app, H1.
  cbn [forOpts]. now rewrite Ho.
Qed.

Lemma X6_witness :
  NewClientWithOptions exampleEnv examplePrefix
    ([UseV2] ++ WithEncryptionContextName 7
        :: [WithCredentialPath "credentials.csv"]) w0
  = (inl (failedSetting
            (Errorf "invalid EncryptionContextName: %v"
                    [ArgString "unrecognized value 7"])), w0).
Proof.
  apply (X6_first_failing_option_stops exampleEnv examplePrefix [UseV2]
           [WithCredentialPath "credentials.csv"]
           (WithEncryptionContextName 7) w0 w0 w0
           (set_builder (builderV2 zero_v2Client) (emptyClient examplePrefix))
           (set_builder (builderV2 zero_v2Client) (emptyClient examplePrefix)));
    reflexivity.
Defined.

(** X7: building a client constructs at most one handle, and touches
    nothing outside the client when no option is [WithCredentialPath]:
    no file is opened, no session is asked for, no handle is made. *)
Theorem X7_build_constructs_at_most_one
        (E : Env) (p : string) (opts : list ClientOption) (w w' : World)
        (r : error + awsClient) :
  NewClientWithOptions E p opts w = (r, w') ->
  constructed w <= constructed w' <= S (constructed w)
  /\ (forallb (fun o => negb (isCredentialPathOption o)) opts = true ->
      w' = w).
Proof.
  rewrite NewClientWithOptions_eq.
  destruct (accepted E p).
  - destruct (forOpts (set E) failedSetting opts (emptyClient p, w))
      as [r0 [a' w1]] eqn:Hf.
    assert (Hw : w' = w1 -> constructed w <= constructed w' <= S (constructed w)
                 /\ (forallb (fun o => negb (isCredentialPathOption o)) opts
                     = true -> w' = w)).
    { intros ->. split.
      - apply (forOpts_constructs E _ _ _ _ _ _ Hf).
      - intros Hall. apply (forOpts_no_credential_path E _ _ _ _ _ _ Hall Hf). }
    destruct r0 as [e|[]]; intros [= _ <-]; now apply Hw.
  - intros [= _ <-]. split; [lia | reflexivity].
Qed.

Lemma X7_witness :
  constructed w0
  <= constructed
       (snd (NewClientWithOptions exampleEnv examplePrefix
               [WithCredentialPath "credentials.csv";
                WithCredentialPath "credentials.cred"] w0))
  <= S (constructed w0).
Proof.
  refine (proj1 (X7_build_constructs_at_most_one exampleEnv examplePrefix
                   [WithCredentialPath "credentials.csv";
                    WithCredentialPath "credentials.cred"] w0 _ _ _)).
  apply surjective_pairing.
Defined.

(** ** The options of the newer client *)

Section V2OptionFacts.

Lemma set_v2_blocked (o : V2ClientOption) (v : v2Client) :
  fieldSet (fieldOf o) v = true ->
  exists e, set_v2 o v = (inl e, v).
Proof.
  unfold set_v2, bind, get, fail.
  destruct o; cbn [fieldOf fieldSet]; intros ->; eauto.
Qed.

Lemma set_v2_open (o : V2ClientOption) (v : v2Client) :
  fieldSet (fieldOf o) v = false ->
  exists v', set_v2 o v = (inr tt, v')
             /\ fieldSet (fieldOf o) v' = writesNonZero o
             /\ forall f, f <> fieldOf o -> fieldSet f v' = fieldSet f v.
Proof.
  unfold set_v2, bind, get, put.
  destruct o; cbn [fieldOf fieldSet]; intros ->; eexists;
    (split; [reflexivity|]); (split; [reflexivity|]);
    intros [] Hf; try reflexivity; now elim Hf.
Qed.

Lemma set_v2_keeps (f : v2Field) (o : V2ClientOption) (v v' : v2Client)
      (r : error + unit) :
  fieldSet f v = true -> set_v2 o v = (r, v') -> fieldSet f v' = true.
Proof.
  intros Hf H. destruct (fieldSet (fieldOf o) v) eqn:Ho.
  - destruct (set_v2_blocked o v Ho) as [e He]. rewrite He in H.
    now injection H as _ <-.
  - destruct (set_v2_open o v Ho) as (v1 & H1 & _ & Hother).
    rewrite H1 in H. injection H as _ <-.
    rewrite Hother; [exact Hf|]. intros ->. congruence.
Qed.

(** An option that writes the zero value of a field that is still open
    changes nothing. *)
Lemma set_v2_zero (o : V2ClientOption) (v : v2Client) :
  writesNonZero o = false -> fieldSet (fieldOf o) v = false ->
  set_v2 o v = (inr tt, v).
Proof.
  unfold set_v2, bind, get, put. destruct v as [k ko lo t].
  destruct o as [[k'|]|t'|[|x opts]|[|x opts]]; cbn; try discriminate.
  - intros _. now destruct k.
  - intros Ht Hz. apply negb_false_iff in Ht, Hz.
    apply Z.eqb_eq in Ht, Hz. subst t t'. reflexivity.
  - intros _. now destruct lo.
  - intros _. now destruct ko.
Qed.

End V2OptionFacts.

(** X8: among the options given to [WithV2KMSOptions], a field of the
    newer client (handle, timeout, load options, KMS options) that was
    given a value other than its zero value cannot be given again: the
    second option for the field fails, whatever stands between and
    around the two, and [NewClientWithOptions] fails at build time. *)
Theorem X8_v2_fields_are_set_once
        (E : Env) (p : string) (w : World) (o1 o2 : V2ClientOption)
        (l1 l2 l3 : list V2ClientOption) (before after : list ClientOption) :
  writesNonZero o1 = true -> fieldOf o2 = fieldOf o1 ->
  isError (fst (forOpts set_v2 failedSetting (l1 ++ o1 :: l2 ++ o2 :: l3)
                        zero_v2Client)) = true
  /\ isError (fst (NewClientWithOptions E p
                     (before
                        ++ WithV2KMSOptions (l1 ++ o1 :: l2 ++ o2 :: l3)
                        :: after) w)) = true.
Proof.
  intros Hnz Hf.
  assert (Hv : forall v,
             isError (fst (forOpts set_v2 failedSetting
                                   (l1 ++ o1 :: l2 ++ o2 :: l3) v)) = true).
  { apply (forOpts_twice (fun v => fieldSet (fieldOf o1) v = true)).
    - intros o v r v' Hs H. eapply set_v2_keeps; eauto.
    - intros v v' H. destruct (fieldSet (fieldOf o1) v) eqn:Ho.
      + destruct (set_v2_blocked o1 v Ho) as [e He]. congruence.
      + destruct (set_v2_open o1 v Ho) as (v1 & H1 & Hs & _).
        rewrite H1 in H. injection H as <-. now rewrite Hs.
    - intros v Hs. rewrite <- Hf in Hs.
      destruct (set_v2_blocked o2 v Hs) as [e ->]. reflexivity. }
  split; [apply Hv|].
  apply NewClientWithOptions_error.
  apply (forOpts_blocked (fun _ => True)); auto.
  intros [a w1] _. unfold set, bind, onObject, get, put, liftE.
  cbn [fst snd]. specialize (Hv zero_v2Client).
  destruct (forOpts set_v2 failedSetting _ zero_v2Client) as [[e|[]] v];
    [reflexivity | discriminate].
Qed.

Lemma X8_witness :
  isError (fst (NewClientWithOptions exampleEnv examplePrefix
                  ([] ++ WithV2KMSOptions
                           ([] ++ WithAPITimeout 3
                               :: [WithLoadOptions [1]]
                               ++ WithAPITimeout 0 :: [])
                      :: [UseV2]) w0)) = true.
Proof.
  apply (proj2 (X8_v2_fields_are_set_once exampleEnv examplePrefix w0
                  (WithAPITimeout 3) (WithAPITimeout 0) [] [WithLoadOptions [1]]
                  [] [] [UseV2] eq_refl eq_refl)).
Defined.

(** X9: an option of the newer client that carries the zero value of its
    field (a nil handle, a timeout of 0, no load options, no KMS options)
    does nothing while the field is open: put first among the options of
    [WithV2KMSOptions] it changes neither the outcome nor the client, and
    the field can still be given a value after it. *)
Theorem X9_v2_zero_option_is_void
        (E : Env) (o : V2ClientOption) (vs : list V2ClientOption)
        (st : awsClient * World) :
  writesNonZero o = false ->
  set E (WithV2KMSOptions (o :: vs)) st = set E (WithV2KMSOptions vs) st.
Proof.
  intros Hz. unfold set, bind, onObject, get, put, liftE. cbn [fst snd forOpts].
  rewrite (set_v2_zero o zero_v2Client Hz); [reflexivity|].
  now destruct o.
Qed.

Lemma X9_witness :
  set exampleEnv (WithV2KMSOptions [WithAPITimeout 0; WithAPITimeout 9])
      (emptyClient examplePrefix, w0)
  = set exampleEnv (WithV2KMSOptions [WithAPITimeout 9])
        (emptyClient examplePrefix, w0).
Proof.
  apply (X9_v2_zero_option_is_void exampleEnv (WithAPITimeout 0)
           [WithAPITimeout 9] (emptyClient examplePrefix, w0)).
  reflexivity.
Defined.

(** ** The newer strategy *)

Section V2BuildFacts.

Variable E : Env.

Lemma defaulted_timeout (v : v2Client) :
  timeout (defaulted v) = effectiveTimeout v
  /\ v2kms (defaulted v) = v2kms v
  /\ loadOpts (defaulted v) = loadOpts v
  /\ kmsOpts (defaulted v) = kmsOpts v.
Proof.
  unfold defaulted, effectiveTimeout.
  destruct (Z.eqb (timeout v) 0); repeat split.
Qed.

Lemma effectiveTimeout_nonzero (v : v2Client) : effectiveTimeout v <> 0%Z.
Proof.
  unfold effectiveTimeout. destruct (Z.eqb_spec (timeout v) 0); [|assumption].
  discriminate.
Qed.

(** The method value [v.BuildAead] called through the client. *)
Lemma callBuilder_v2 (c : awsClient) (v : v2Client) (w : World)
      (uri : string) (n : EncryptionContextName) :
  builder c = builderV2 v ->
  callBuilder E uri n (c, w) =
  match v2kms v with
  | Some k =>
      (inr (newAWSV2AEAD uri k n (effectiveTimeout v)),
       (set_builder (builderV2 (defaulted v)) c, w))
  | None =>
      match config_LoadDefaultConfig E (effectiveTimeout v) (loadOpts v) with
      | Some msg =>
          (inl (Errorf "loading AWS default config: %w"
                       [ArgError (libError "config" msg)]),
           (set_builder (builderV2 (defaulted v)) c, w))
      | None =>
          let k := kmsv2_NewFromConfig (constructed w) (loadOpts v)
                                       (kmsOpts v) in
          (inr (newAWSV2AEAD uri k n (effectiveTimeout v)),
           (set_builder (builderV2 (set_v2kms (Some k) (defaulted v))) c,
            handleBuilt w))
      end
  end.
Proof.
  intros Hb.
  unfold callBuilder, BuildAead, new_v2kms, bind, onObject, inWorld, get, put,
    ret, fail, defaulted, effectiveTimeout, handleBuilt.
  cbv beta iota delta [fst snd]. rewrite Hb.
  destruct v as [k ko lo t]. cbn.
  destruct (Z.eqb t 0); cbn; destruct k as [k|]; cbn; try reflexivity;
    destruct (config_LoadDefaultConfig E _ lo); reflexivity.
Qed.

End V2BuildFacts.

(** X10: the time budget of the newer strategy is never zero.  A call of
    [GetAEAD] on a supported key leaves the receiver of [BuildAead] with
    the timeout the caller chose, or with the default of five seconds
    when that was zero, also when the call fails; an adapter that comes
    back carries that timeout. *)
Theorem X10_v2_timeout_is_defaulted
        (E : Env) (c c' : awsClient) (v : v2Client) (w w' : World)
        (s : string) (r : error + AEAD) :
  builder c = builderV2 v -> Supported c s = true ->
  GetAEAD E s (c, w) = (r, (c', w')) ->
  effectiveTimeout v <> 0%Z
  /\ (exists v', builder c' = builderV2 v'
                 /\ timeout v' = effectiveTimeout v
                 /\ loadOpts v' = loadOpts v /\ kmsOpts v' = kmsOpts v)
  /\ (forall a, r = inr a -> aeadTimeout a = Some (effectiveTimeout v)).
Proof.
  intros Hb Hs. rewrite (GetAEAD_supported E c w s Hs).
  rewrite (callBuilder_v2 E c v w _ _ Hb).
  destruct (defaulted_timeout v) as (Ht & _ & Hl & Hk).
  intros H. split; [apply effectiveTimeout_nonzero|]. revert H.
  destruct (v2kms v) as [k|];
    [|destruct (config_LoadDefaultConfig E _ _) as [msg|]];
    intros [= <- <- <-]; (split; [eexists; split; [reflexivity|]; auto|]);
    try (now intros ? [= <-]); discriminate.
Qed.

Lemma X10_witness :
  aeadTimeout
    (newAWSV2AEAD "arn:aws:kms:us-east-2:235739564943:key/3ee50705"
       (kmsv2_NewFromConfig 0 [] []) AssociatedData 5000000000)
  = Some 5000000000%Z.
Proof.
  refine (proj2 (proj2 (X10_v2_timeout_is_defaulted exampleEnv
            (set_builder (builderV2 zero_v2Client)
                         (finish (emptyClient examplePrefix)))
            _ zero_v2Client w0 _ exampleKeyURI _ eq_refl eq_refl _)) _ _).
  - apply injective_projections; [|apply surjective_pairing].
    cbn [fst]. reflexivity.
  - reflexivity.
Defined.

(** X11: once the newer strategy is selected, a handle given by [WithKMS]
    or made from a credential file is never used.  [GetAEAD] leaves the
    legacy handle of the client as it is, asks for no legacy session, and
    every adapter it returns is one of the newer client. *)
Theorem X11_v2_ignores_the_legacy_handle
        (E : Env) (c c' : awsClient) (v : v2Client) (w w' : World)
        (s : string) (r : error + AEAD) :
  builder c = builderV2 v ->
  GetAEAD E s (c, w) = (r, (c', w')) ->
  kms c' = kms c /\ sessions w' = sessions w
  /\ isV2Builder (builder c') = true
  /\ (forall a, r = inr a -> isV2Adapter a = true).
Proof.
  intros Hb. destruct (Supported c s) eqn:Hs.
  - rewrite (GetAEAD_supported E c w s Hs).
    rewrite (callBuilder_v2 E c v w _ _ Hb).
    destruct (v2kms v) as [k|];
      [|destruct (config_LoadDefaultConfig E _ _) as [msg|]];
      intros [= <- <- <-]; repeat split;
      try (now intros ? [= <-]); discriminate.
  - rewrite (GetAEAD_unsupported E c w s Hs). intros [= <- <- <-].
    rewrite Hb. repeat split. discriminate.
Qed.

Lemma X11_witness :
  isV2Adapter
    (newAWSV2AEAD "arn:aws:kms:us-east-2:235739564943:key/3ee50705"
       (kmsv2_NewFromConfig 0 [] []) AssociatedData 5000000000)
  = true.
Proof.
  refine (proj2 (proj2 (proj2 (X11_v2_ignores_the_legacy_handle exampleEnv
            (set_builder (builderV2 zero_v2Client)
               (set_kms (Some (callerKMS 1))
                        (finish (emptyClient examplePrefix))))
            _ zero_v2Client w0 _ exampleKeyURI _ eq_refl _))) _ _).
  - apply injective_projections; [|apply surjective_pairing].
    cbn [fst]. reflexivity.
  - reflexivity.
Defined.

(** ** Calls on a finished client *)

Section CallFacts.

Variable E : Env.

(** The closure of the legacy client called through the client. *)
Lemma callBuilder_v1 (c : awsClient) (p : string) (w : World)
      (uri : string) (n : EncryptionContextName) :
  builder c = builderV1 p ->
  callBuilder E uri n (c, w) =
  match kms c with
  | Some k => (inr (newAWSAEAD uri k n), (c, w))
  | None =>
      match getKMS E p w with
      | (inl e, w') => (inl e, (c, w'))
      | (inr k, w') => (inr (newAWSAEAD uri k n), (set_kms (Some k) c, w'))
      end
  end.
Proof.
  intros Hb.
  unfold callBuilder, buildV1, bind, onObject, inWorld, get, put, ret, fail.
  cbv beta iota delta [fst snd]. rewrite Hb.
  destruct (kms c) as [k|] eqn:Hk.
  - now rewrite Hk.
  - now destruct (getKMS E p w) as [[e|k] w'].
Qed.

Lemma getKMS_world (p : string) (w w' : World) (r : error + KMSAPI) :
  getKMS E p w = (r, w') -> constructed w <= constructed w'.
Proof.
  rewrite getKMS_eq. destruct (getRegion p) as [e|region].
  - intros [= _ <-]. lia.
  - rewrite sessionThenKMS_eq.
    destruct (session_NewSession E _); intros [= _ <-]; cbn; lia.
Qed.

Ltac six := split; [|split; [|split; [|split; [|split]]]].

(** What a call of the builder keeps of the client. *)
Lemma callBuilder_keeps (c c' : awsClient) (w w' : World) (uri : string)
      (n : EncryptionContextName) (r : error + AEAD) :
  callBuilder E uri n (c, w) = (r, (c', w')) ->
  keyURIPrefix c' = keyURIPrefix c
  /\ encryptionContextName c' = encryptionContextName c
  /\ isV2Builder (builder c') = isV2Builder (builder c)
  /\ (forall k, kms c = Some k -> kms c' = Some k)
  /\ constructed w <= constructed w'
  /\ (forall a, r = inr a -> aeadKeyURI a = uri /\ aeadContextName a = n).
Proof.
  destruct (builder c) as [p|v] eqn:Hb.
  - rewrite (callBuilder_v1 c p w uri n Hb).
    destruct (kms c) as [k|] eqn:Hk.
    + intros [= <- <- <-]. rewrite Hb. six; auto; try congruence.
      intros ? [= <-]. split; reflexivity.
    + destruct (getKMS E p w) as [[e|k] w1] eqn:Hg;
        apply getKMS_world in Hg; intros [= <- <- <-]; cbn; rewrite ?Hb;
        six; auto; try discriminate;
        intros ? [= <-]; split; reflexivity.
  - rewrite (callBuilder_v2 E c v w uri n Hb).
    destruct (v2kms v) as [k|];
      [|destruct (config_LoadDefaultConfig E _ _) as [msg|]];
      intros [= <- <- <-]; cbn; six; auto; try discriminate;
      intros ? [= <-]; split; reflexivity.
Qed.

Lemma GetAEAD_session_refused (c : awsClient) (w : World)
      (p region s msg : string) :
  builder c = builderV1 p -> kms c = None ->
  getRegion p = inr region ->
  session_NewSession E (defaultConfig region) = Some msg ->
  Supported c s = true ->
  GetAEAD E s (c, w)
  = (inl (Errorf "building AEAD: %w" [ArgError (libError "session" msg)]),
     (c, sessionLogged (defaultConfig region) w)).
Proof.
  intros Hb Hk Hr Hm Hs. rewrite (GetAEAD_supported E c w s Hs).
  rewrite (callBuilder_v1 c p w _ _ Hb), Hk, getKMS_eq, Hr.
  now rewrite sessionThenKMS_eq, Hm.
Qed.

End CallFacts.

(** X12: a client whose active strategy holds a handle resolves every key
    URI it supports: [GetAEAD] cannot fail, touches nothing outside the
    client, and the adapter holds that handle, the context name of the
    client and the key URI as [strings.TrimPrefix] leaves it. *)
Theorem X12_GetAEAD_with_a_handle_succeeds
        (E : Env) (c : awsClient) (w : World) (s : string)
        (h : KMSAPI + V2KMS) :
  activeHandle c = Some h -> Supported c s = true ->
  exists a c',
    GetAEAD E s (c, w) = (inr a, (c', w))
    /\ aeadHandle a = h
    /\ aeadContextName a = encryptionContextName c
    /\ aeadKeyURI a = strings.TrimPrefix s awsPrefix
    /\ activeHandle c' = Some h.
Proof.
  intros Hh Hs. rewrite (GetAEAD_supported E c w s Hs).
  destruct (callBuilder E _ _ (c, w)) as [r [c' w']] eqn:Hb.
  apply (callBuilder_reuses E _ _ _ _ _ _ h _ Hh) in Hb.
  destruct Hb as (-> & Hh' & _ & _ & a & -> & Ha & Hu & Hn).
  exists a, c'. auto.
Qed.

Lemma X12_witness :
  exists a c',
    GetAEAD exampleEnv capitalKeyURI
      (set_kms (Some (callerKMS 4)) (finish (emptyClient capitalPrefix)), w0)
    = (inr a, (c', w0))
    /\ aeadHandle a = inl (callerKMS 4)
    /\ aeadContextName a = AssociatedData
    /\ aeadKeyURI a = strings.TrimPrefix capitalKeyURI awsPrefix
    /\ activeHandle c' = Some (inl (callerKMS 4)).
Proof.
  apply (X12_GetAEAD_with_a_handle_succeeds exampleEnv
           (set_kms (Some (callerKMS 4)) (finish (emptyClient capitalPrefix)))
           w0 capitalKeyURI (inl (callerKMS 4))); reflexivity.
Defined.

(** X13: [GetAEAD] never changes what a finished client accepts or how it
    binds associated data.  Whatever the key URI and the outcome, the
    prefix, the context name and the kind of strategy of the client stay,
    so [Supported] answers as before; a legacy handle that is set stays;
    and the count of constructed handles never goes down. *)
Theorem X13_GetAEAD_keeps_the_descriptor
        (E : Env) (c c' : awsClient) (w w' : World) (s : string)
        (r : error + AEAD) :
  GetAEAD E s (c, w) = (r, (c', w')) ->
  keyURIPrefix c' = keyURIPrefix c
  /\ encryptionContextName c' = encryptionContextName c
  /\ isV2Builder (builder c') = isV2Builder (builder c)
  /\ (forall u, Supported c' u = Supported c u)
  /\ (forall k, kms c = Some k -> kms c' = Some k)
  /\ constructed w <= constructed w'.
Proof.
  intros H.
  assert (Hk : keyURIPrefix c' = keyURIPrefix c
               /\ encryptionContextName c' = encryptionContextName c
               /\ isV2Builder (builder c') = isV2Builder (builder c)
               /\ (forall k, kms c = Some k -> kms c' = Some k)
               /\ constructed w <= constructed w').
  { destruct (Supported c s) eqn:Hs.
    - rewrite (GetAEAD_supported E c w s Hs) in H.
      destruct (callBuilder E _ _ (c, w)) as [r0 [c0 w0']] eqn:Hb.
      apply callBuilder_keeps in Hb.
      destruct Hb as (H1 & H2 & H3 & H4 & H5 & _).
      destruct r0; injection H as _ <- <-; auto.
    - rewrite (GetAEAD_unsupported E c w s Hs) in H.
      injection H as _ <- <-. repeat split; auto. }
  destruct Hk as (H1 & H2 & H3 & H4 & H5).
  repeat split; try assumption.
  intros u. unfold Supported. now rewrite H1.
Qed.

Lemma X13_witness :
  keyURIPrefix
    (fst (snd (GetAEAD exampleEnv exampleKeyURI
                 (finish (emptyClient examplePrefix), w0))))
  = examplePrefix.
Proof.
  refine (proj1 (X13_GetAEAD_keeps_the_descriptor exampleEnv
                   (finish (emptyClient examplePrefix)) _ w0 _
                   exampleKeyURI _ _)).
  apply injective_projections; [reflexivity|].
  apply surjective_pairing.
Defined.

(** X14: for a client whose prefix begins with the lowercase scheme, the
    adapter [GetAEAD] returns is made for the key URI without the scheme:
    putting the scheme back in front of the adapter's key gives the key
    URI that was asked for. *)
Theorem X14_scheme_is_stripped_from_lowercase_keys
        (E : Env) (c : awsClient) (w : World) (rest s : string)
        (a : AEAD) (st : awsClient * World) :
  keyURIPrefix c = awsPrefix ++ rest ->
  GetAEAD E s (c, w) = (inr a, st) ->
  awsPrefix ++ aeadKeyURI a = s.
Proof.
  intros Hp H. destruct (Supported c s) eqn:Hs.
  - rewrite (GetAEAD_supported E c w s Hs) in H.
    destruct (callBuilder E _ _ (c, w)) as [r0 [c0 w0']] eqn:Hb.
    apply callBuilder_keeps in Hb.
    destruct Hb as (_ & _ & _ & _ & _ & Ha).
    destruct r0 as [e|a0]; [discriminate|]. injection H as <- _.
    destruct (Ha a0 eq_refl) as [-> _].
    unfold Supported in Hs. apply HasPrefix_true in Hs.
    destruct Hs as [t ->]. rewrite Hp, append_assoc.
    now rewrite TrimPrefix_append.
  - rewrite (GetAEAD_unsupported E c w s Hs) in H. discriminate.
Qed.

Lemma X14_witness :
  awsPrefix ++ "arn:aws:kms:us-east-2:235739564943:key/3ee50705"
  = exampleKeyURI.
Proof.
  apply (X14_scheme_is_stripped_from_lowercase_keys exampleEnv
           (finish (emptyClient examplePrefix)) w0 "arn:aws:kms:us-east-2:"
           exampleKeyURI
           (newAWSAEAD "arn:aws:kms:us-east-2:235739564943:key/3ee50705"
              (kms_New 0 (defaultConfig "us-east-2")) AssociatedData)
           (set_kms (Some (kms_New 0 (defaultConfig "us-east-2")))
                    (finish (emptyClient examplePrefix)),
            handleBuilt (sessionLogged (defaultConfig "us-east-2") w0)));
    reflexivity.
Defined.

(** ** The deprecated constructors and the context name *)

(** X15: the deprecated constructors differ from [NewClientWithOptions] in
    the context name: a client they return binds associated data under
    [LegacyAdditionalData], "additionalData".  [NewClient] touches
    nothing outside and leaves the handle to be built on first use;
    [NewClientWithKMS] holds the handle it was given, and given nil it
    returns what [NewClient] returns; [NewClientWithCredentials] has
    constructed one handle and holds it. *)
Theorem X15_deprecated_constructors_use_the_legacy_name
        (E : Env) (p : string) (w w' : World) (c : awsClient) :
  (NewClient E p w = (inr c, w') ->
   c = set_encryptionContextName LegacyAdditionalData (emptyClient p)
   /\ w' = w)
  /\ (forall k,
         NewClientWithKMS E p k w = (inr c, w') ->
         c = set_encryptionContextName LegacyAdditionalData
               (set_kms k (emptyClient p))
         /\ w' = w)
  /\ (forall path,
         NewClientWithCredentials E p path w = (inr c, w') ->
         encryptionContextName c = LegacyAdditionalData
         /\ keyURIPrefix c = p /\ builder c = builderV1 p
         /\ (exists cfg, kms c = Some (kms_New (constructed w) cfg))
         /\ constructed w' = S (constructed w))
  /\ NewClientWithKMS E p None w = NewClient E p w
  /\ EncryptionContextName_String LegacyAdditionalData = "additionalData".
Proof.
  unfold NewClient, NewClientWithKMS, NewClientWithCredentials.
  split; [|split; [|split; [|split]]]; try reflexivity.
  - rewrite NewClientWithOptions_eq. destruct (accepted E p); [|discriminate].
    cbn. intros [= <- <-]. auto.
  - intros k. rewrite NewClientWithOptions_eq.
    destruct (accepted E p); [|discriminate].
    cbn. intros [= <- <-]. auto.
  - intros path. rewrite NewClientWithOptions_eq.
    destruct (accepted E p); [|discriminate].
    cbn [forOpts]. unfold set at 1. unfold bind, onObject, inWorld, get, put.
    cbn [fst snd emptyClient kms isSome keyURIPrefix].
    destruct (getKMSFromCredentialPath E p path w) as [[e|k] w1] eqn:Hg;
      [discriminate|].
    cbn. intros [= <- <-]. cbn.
    pose proof (getKMSFromCredentialPath_world E _ _ _ _ _ Hg) as Hw.
    cbn in Hw. repeat split; try assumption.
    revert Hg. unfold getKMSFromCredentialPath, bind, liftE, fail, ret.
    destruct (getRegion p); [discriminate|].
    destruct (Nat.eqb (String.length path) 0); [discriminate|].
    destruct (extractCredsCSV E path) as [[]|[ak sk]];
      try discriminate; unfold NewSession, new_kms;
      destruct (session_NewSession E _); try discriminate;
      intros [= <- _]; eexists; reflexivity.
Qed.

Lemma X15_witness :
  set_encryptionContextName LegacyAdditionalData
    (set_kms (Some (callerKMS 2)) (emptyClient "aws-kms://"))
  = set_encryptionContextName LegacyAdditionalData
      (set_kms (Some (callerKMS 2)) (emptyClient "aws-kms://"))
  /\ w0 = w0.
Proof.
  apply (proj1 (proj2 (X15_deprecated_constructors_use_the_legacy_name
                         exampleEnv "aws-kms://" w0 w0 _))
           (Some (callerKMS 2))).
  reflexivity.
Defined.



(** ** A session that is refused *)

(** X17: the legacy client does not remember a failed attempt to build
    its handle.  While the session is refused, each call of [GetAEAD] on
    a supported key asks for a session again and fails with the same
    wrapped error; nothing is constructed and the client does not change. *)
Theorem X17_refused_session_is_retried
        (E : Env) (c : awsClient) (w : World) (p region msg : string)
        (keyURIs : list string) :
  builder c = builderV1 p -> kms c = None ->
  getRegion p = inr region ->
  session_NewSession E (defaultConfig region) = Some msg ->
  forallb (Supported c) keyURIs = true ->
  GetAEADs E keyURIs (c, w)
  = (map (fun _ => inl (Errorf "building AEAD: %w"
                          [ArgError (libError "session" msg)])) keyURIs,
     (c, {| constructed := constructed w;
            sessions := sessions w
                        ++ repeat (defaultConfig region)
                                  (List.length keyURIs) |})).
Proof.
  intros Hb Hk Hr Hm. revert w.
  induction keyURIs as [|u us IH]; intros w Hs; simpl.
  - rewrite app_nil_r. now destruct w.
  - simpl in Hs. apply andb_true_iff in Hs. destruct Hs as [Hu Hus].
    rewrite (GetAEAD_session_refused E c w p region u msg Hb Hk Hr Hm Hu).
    rewrite (IH _ Hus). cbn [sessionLogged constructed sessions].
    now rewrite <- app_assoc.
Qed.

Lemma X17_witness :
  GetAEADs
    {| unicode_ToLower := fun s => s;
       os_Open := exampleFiles;
       csv_ReadAll := exampleCSV;
       session_NewSession := fun _ => Some "no credentials";
       config_LoadDefaultConfig := fun _ _ => None |}
    [exampleKeyURI; exampleKeyURI]
    (finish (emptyClient examplePrefix), w0)
  = ([inl (Errorf "building AEAD: %w"
                  [ArgError (libError "session" "no credentials")]);
      inl (Errorf "building AEAD: %w"
                  [ArgError (libError "session" "no credentials")])],
     (finish (emptyClient examplePrefix),
      {| constructed := 0;
         sessions := [defaultConfig "us-east-2"; defaultConfig "us-east-2"] |})).
Proof.
  apply (X17_refused_session_is_retried _
           (finish (emptyClient examplePrefix)) w0 examplePrefix "us-east-2"
           "no credentials" [exampleKeyURI; exampleKeyURI]); reflexivity.
Defined.

(** ** What every finished client satisfies *)

Section FinishedFacts.

Variable E : Env.

Ltac split_cases :=
  repeat match goal with
         | H : _ /\ _ |- _ => destruct H
         | H : _ \/ _ |- _ => destruct H
         | H : exists _, _ |- _ => destruct H
         | H : match ?x with inl _ => _ | inr _ => _ end |- _ => destruct x
         end;
  subst.

Lemma set_underConstruction (p : string) (o : ClientOption)
      (a a' : awsClient) (w w' : World) (r : error + unit) :
  underConstruction p a -> set E o (a, w) = (r, (a', w')) ->
  underConstruction p a'.
Proof.
  intros (Hp & Hn & Hb) H. apply set_cases in H.
  destruct o; split_cases; try (split; [|split]; assumption);
    (split; [|split]); cbn; try assumption; try discriminate; auto.
Qed.

Lemma forOpts_underConstruction (p : string) (opts : list ClientOption)
      (a a' : awsClient) (w w' : World) (r : error + unit) :
  underConstruction p a ->
  forOpts (set E) failedSetting opts (a, w) = (r, (a', w')) ->
  underConstruction p a'.
Proof.
  intros Ha H.
  apply (forOpts_invariant (fun s => underConstruction p (fst s))
           (set E) failedSetting opts) with (s := (a, w)) (r := r)
           (s' := (a', w')); [|exact Ha|exact H].
  intros o [a1 w1] r1 [a2 w2] H1 H2. cbn [fst] in *.
  eapply set_underConstruction; eauto.
Qed.

End FinishedFacts.

(** X18: every client [NewClientWithOptions] returns is for an accepted
    prefix, keeps that prefix, has one of the two context names of the
    package, so that its adapters bind associated data under
    "associatedData" or "additionalData", and, when it is a legacy
    client, builds its handle from that prefix. *)
Theorem X18_finished_client_is_well_formed
        (E : Env) (p : string) (opts : list ClientOption) (w w' : World)
        (c : awsClient) :
  NewClientWithOptions E p opts w = (inr c, w') ->
  accepted E p = true
  /\ keyURIPrefix c = p
  /\ (encryptionContextName c = AssociatedData
      \/ encryptionContextName c = LegacyAdditionalData)
  /\ (EncryptionContextName_String (encryptionContextName c) = "associatedData"
      \/ EncryptionContextName_String (encryptionContextName c)
         = "additionalData")
  /\ (isV2Builder (builder c) = false -> builder c = builderV1 p).
Proof.
  intros H. apply NewClientWithOptions_ok in H.
  destruct H as (Hacc & a' & Hf & ->).
  assert (Hu : underConstruction p a').
  { apply (forOpts_underConstruction E p opts (emptyClient p) a' w w'
             (inr tt)); [|exact Hf].
    repeat split; auto. }
  destruct Hu as (Hp & Hn & Hb).
  assert (Hname : encryptionContextName (finish a') = AssociatedData
                  \/ encryptionContextName (finish a') = LegacyAdditionalData).
  { unfold finish. destruct Hn as [H0|Hv].
    - rewrite H0. left. reflexivity.
    - destruct (Nat.eqb_spec (encryptionContextName a') 0) as [H0|H0].
      + left. reflexivity.
      + now apply valid_names. }
  split; [exact Hacc|]. rewrite finish_keyURIPrefix, finish_build.
  split; [exact Hp|]. split; [exact Hname|]. split; [|exact Hb].
  destruct Hname as [->| ->]; [left | right]; reflexivity.
Qed.

Lemma X18_witness :
  encryptionContextName
    (finish (set_encryptionContextName LegacyAdditionalData
               (set_builder (builderV2 zero_v2Client)
                            (emptyClient examplePrefix)))) = AssociatedData
  \/ encryptionContextName
       (finish (set_encryptionContextName LegacyAdditionalData
                  (set_builder (builderV2 zero_v2Client)
                               (emptyClient examplePrefix))))
     = LegacyAdditionalData.
Proof.
  refine (proj1 (proj2 (proj2 (X18_finished_client_is_well_formed exampleEnv
            examplePrefix
            [UseV2; WithEncryptionContextName LegacyAdditionalData]
            w0 w0 _ _)))).
  reflexivity.
Defined.

(** X19: a client of the newer strategy that holds no handle loads the
    default configuration with its load options under its time budget
    and, when that succeeds, constructs one handle from the load options
    and the KMS options and keeps it; when the loading fails the error
    comes back wrapped twice and nothing is constructed.  A client that
    was given a handle by [WithV2KMS] never loads a configuration. *)
Theorem X19_v2_handle_from_options
        (E : Env) (c : awsClient) (v : v2Client) (w : World) (s : string) :
  builder c = builderV2 v -> Supported c s = true ->
  (forall k,
      v2kms v = Some k ->
      GetAEAD E s (c, w)
      = (inr (newAWSV2AEAD (strings.TrimPrefix s awsPrefix) k
                (encryptionContextName c) (effectiveTimeout v)),
         (set_builder (builderV2 (defaulted v)) c, w)))
  /\ (v2kms v = None ->
      config_LoadDefaultConfig E (effectiveTimeout v) (loadOpts v) = None ->
      GetAEAD E s (c, w)
      = (inr (newAWSV2AEAD (strings.TrimPrefix s awsPrefix)
                (kmsv2_NewFromConfig (constructed w) (loadOpts v) (kmsOpts v))
                (encryptionContextName c) (effectiveTimeout v)),
         (set_builder
            (builderV2
               (set_v2kms
                  (Some (kmsv2_NewFromConfig (constructed w) (loadOpts v)
                                             (kmsOpts v)))
                  (defaulted v))) c,
          handleBuilt w)))
  /\ (forall msg,
         v2kms v = None ->
         config_LoadDefaultConfig E (effectiveTimeout v) (loadOpts v)
         = Some msg ->
         GetAEAD E s (c, w)
         = (inl (Errorf "building AEAD: %w"
                   [ArgError
                      (Errorf "loading AWS default config: %w"
                              [ArgError (libError "config" msg)])]),
            (set_builder (builderV2 (defaulted v)) c, w))).
Proof.
  intros Hb Hs. rewrite (GetAEAD_supported E c w s Hs).
  rewrite (callBuilder_v2 E c v w _ _ Hb).
  split; [|split].
  - now intros k ->.
  - now intros -> ->.
  - now intros msg -> ->.
Qed.

Lemma X19_witness :
  GetAEAD exampleEnv exampleKeyURI
    (set_builder
       (builderV2 (set_kmsOpts [5] (set_loadOpts [3] zero_v2Client)))
       (finish (emptyClient examplePrefix)), w0)
  = (inr (newAWSV2AEAD "arn:aws:kms:us-east-2:235739564943:key/3ee50705"
            (kmsv2_NewFromConfig 0 [3] [5]) AssociatedData 5000000000),
     (set_builder
        (builderV2
           (set_v2kms (Some (kmsv2_NewFromConfig 0 [3] [5]))
              (defaulted (set_kmsOpts [5] (set_loadOpts [3] zero_v2Client)))))
        (set_builder
           (builderV2 (set_kmsOpts [5] (set_loadOpts [3] zero_v2Client)))
           (finish (emptyClient examplePrefix))),
      handleBuilt w0)).
Proof.
  apply (proj1 (proj2 (X19_v2_handle_from_options exampleEnv
                  (set_builder
                     (builderV2 (set_kmsOpts [5]
                                   (set_loadOpts [3] zero_v2Client)))
                     (finish (emptyClient examplePrefix)))
                  (set_kmsOpts [5] (set_loadOpts [3] zero_v2Client))
                  w0 exampleKeyURI eq_refl eq_refl))); reflexivity.
Defined.
